(** * auto-command-manager: argument construction and subprocess execution

    A shallow embedding of [src/auto-command-manager.ts], the wrapper that
    turns typed method calls into argument vectors for the [auto] release
    tool, runs the tool as a subprocess and returns its captured output.

    Conventions of the embedding:
    - a JavaScript string is a [string]; its characters are read as code
      units below 256, so a truthy string is a non-empty one;
    - a pull-request [number] is an integer [Z] (pull-request numbers are
      integral and far below 10^21, where [Number.prototype.toString] prints
      plain decimal digits);
    - an array that the source grows with [push] is a [list string] passed
      through the function that grows it;
    - a promise is the value it settles to, and an [async] method is a
      computation in the [Async] monad below, which records every spawned
      subprocess and every promise that nobody awaits. *)

From Stdlib Require Import List String Ascii ZArith NArith Bool Lia.
From Stdlib Require Import DecimalString DecimalPos DecimalZ.
Import ListNotations.

Open Scope string_scope.
Open Scope Z_scope.

(* ================================================================= *)
(** ** JavaScript primitives used by the source *)

Module Js.

(** [if (s)] on a string: the empty string is the only falsy one. *)
Definition truthy (s : string) : bool :=
  match s with
  | EmptyString => false
  | String _ _ => true
  end.

(** [Array.prototype.push(...items)], returning the grown array. *)
Definition push (args : list string) (items : list string) : list string :=
  args ++ items.

(** [Number.prototype.toString()] on an integer of the safe range (up to
    2^53 - 1 in absolute value), where it prints the exact decimal digits;
    larger numbers are outside the embedding. *)
Definition toString (n : Z) : string :=
  NilZero.string_of_int (Z.to_int n).

(** [Array.prototype.join(sep)] on an array of strings. *)
Definition join (sep : string) (xs : list string) : string :=
  String.concat sep xs.

(** White space and line terminators of ECMAScript among the code units
    below 256: TAB, LF, VT, FF, CR, SP and NBSP. *)
Definition isWhiteSpace (c : ascii) : bool :=
  let n := N_of_ascii c in
  ((9 <=? n) && (n <=? 13) || (n =? 32) || (n =? 160))%N.

Fixpoint trimStart (s : string) : string :=
  match s with
  | EmptyString => EmptyString
  | String c s' => if isWhiteSpace c then trimStart s' else s
  end.

(** [trimEnd] keeps a character when it is not white space or when
    something is left after it once the tail has been trimmed. *)
Fixpoint trimEnd (s : string) : string :=
  match s with
  | EmptyString => EmptyString
  | String c s' =>
      match trimEnd s' with
      | EmptyString => if isWhiteSpace c then EmptyString else String c EmptyString
      | t => String c t
      end
  end.

(** [String.prototype.trim()]. *)
Definition trim (s : string) : string := trimEnd (trimStart s).

(** [s.includes(c)] for a one-character needle. *)
Fixpoint includesChar (c : ascii) (s : string) : bool :=
  match s with
  | EmptyString => false
  | String d s' => Ascii.eqb c d || includesChar c s'
  end.

Definition LF : ascii := ascii_of_nat 10.

(** [a < b] on two strings: code units compared left to right. *)
Definition stringLt (a b : string) : bool := String.ltb a b.

End Js.

(* ================================================================= *)
(** ** The enumerations *)

Inductive AutoCommand : Type :=
| cmd_info
| cmd_changelog
| cmd_release
| cmd_shipit
| cmd_latest
| cmd_next
| cmd_canary
| cmd_label
| cmd_prStatus
| cmd_prCheck
| cmd_prBody
| cmd_comment.

(** The string value of each member of [enum AutoCommand]. *)
Definition AutoCommand_value (c : AutoCommand) : string :=
  match c with
  | cmd_info => "info"
  | cmd_changelog => "changelog"
  | cmd_release => "release"
  | cmd_shipit => "shipit"
  | cmd_latest => "latest"
  | cmd_next => "next"
  | cmd_canary => "canary"
  | cmd_label => "label"
  | cmd_prStatus => "pr-status"
  | cmd_prCheck => "pr-check"
  | cmd_prBody => "pr-body"
  | cmd_comment => "comment"
  end.

Inductive PrState : Type :=
| pending
| success
| error
| failure.

Definition PrState_value (s : PrState) : string :=
  match s with
  | pending => "pending"
  | success => "success"
  | error => "error"
  | failure => "failure"
  end.

(* ================================================================= *)
(** ** Regular expressions: the fragment the source uses

    [String.prototype.match] with a pattern that has no [g] flag returns the
    leftmost match, found by a backtracking search in which [+] and [?] are
    greedy.  The matcher is written in continuation-passing style: [run r s k]
    matches [r] at the start of [s] and hands what is left to [k], trying the
    alternatives in the order of the ECMAScript semantics. *)

Module Regex.

Inductive regex : Type :=
| RChar (p : ascii -> bool)          (* one character of a class *)
| RPlus (p : ascii -> bool)          (* one or more characters of a class *)
| RSeq (r1 r2 : regex)               (* concatenation *)
| ROpt (r : regex).                  (* a group followed by ? *)

(** [\d]: the ten ASCII digits. *)
Definition digit (c : ascii) : bool :=
  let n := N_of_ascii c in ((48 <=? n) && (n <=? 57))%N.

(** A literal character. *)
Definition lit (c : ascii) (d : ascii) : bool := Ascii.eqb c d.

(** Greedy [p+]: take one more character first, fall back to stopping here. *)
Fixpoint plus (p : ascii -> bool) (s : string) (k : string -> option string)
  : option string :=
  match s with
  | EmptyString => None
  | String c s' =>
      if p c then
        match plus p s' k with
        | Some rest => Some rest
        | None => k s'
        end
      else None
  end.

Fixpoint run (r : regex) (s : string) (k : string -> option string)
  : option string :=
  match r with
  | RChar p =>
      match s with
      | EmptyString => None
      | String c s' => if p c then k s' else None
      end
  | RPlus p => plus p s k
  | RSeq r1 r2 => run r1 s (fun s1 => run r2 s1 k)
  | ROpt r1 =>
      match run r1 s k with
      | Some rest => Some rest
      | None => k s
      end
  end.

(** The text matched at the start of [s], if the pattern matches there. *)
Definition matchHere (r : regex) (s : string) : option string :=
  match run r s Some with
  | Some rest => Some (substring 0 (String.length s - String.length rest)%nat s)
  | None => None
  end.

(** [s.match(r)[0]], or [None] for [null]: the first start position, from
    the left, at which the pattern matches. *)
Fixpoint search (r : regex) (s : string) : option string :=
  match matchHere r s with
  | Some m => Some m
  | None =>
      match s with
      | EmptyString => None
      | String _ s' => search r s'
      end
  end.

End Regex.

(* ================================================================= *)
(** ** The [semver] package

    [semver] is a dependency of the repository, not part of its sources.  The
    definitions below follow its strict (non-loose) grammar, which is what
    [semver.valid(s)] and [new SemVer(s)] use when called without options:
    the input may be at most 256 characters, is trimmed, and must then be

      v? MAJOR . MINOR . PATCH ( - PRERELEASE )? ( + BUILD )?

    where the three numbers are [0] or digits without a leading zero and do
    not exceed [Number.MAX_SAFE_INTEGER]; a prerelease is a dot-separated
    list of identifiers over [0-9A-Za-z-], the all-digit ones without a
    leading zero; a build is a dot-separated list of non-empty identifiers
    over [0-9A-Za-z-]. *)

Module Semver.

Record SemVer : Type := mkSemVer {
  major : N;
  minor : N;
  patch : N;
  prerelease : list string;
  build : list string
}.

Definition MAX_LENGTH : nat := 256.
Definition MAX_SAFE_INTEGER : N := 9007199254740991.

Definition isLetterOrHyphen (c : ascii) : bool :=
  let n := N_of_ascii c in
  ((65 <=? n) && (n <=? 90) || (97 <=? n) && (n <=? 122) || (n =? 45))%N.

Definition isIdentChar (c : ascii) : bool :=
  Regex.digit c || isLetterOrHyphen c.

Fixpoint all (p : ascii -> bool) (s : string) : bool :=
  match s with
  | EmptyString => true
  | String c s' => p c && all p s'
  end.

Fixpoint any (p : ascii -> bool) (s : string) : bool :=
  match s with
  | EmptyString => false
  | String c s' => p c || any p s'
  end.

(** The value of a string of decimal digits, most significant first. *)
Fixpoint digitsValue (acc : N) (s : string) : N :=
  match s with
  | EmptyString => acc
  | String c s' => digitsValue (acc * 10 + (N_of_ascii c - 48))%N s'
  end.

(** NUMERICIDENTIFIER, [0|[1-9]\d*], with its value. *)
Definition numericIdentifier (s : string) : option N :=
  match s with
  | EmptyString => None
  | String c s' =>
      if negb (all Regex.digit s) then None
      else if Ascii.eqb c "0" && negb (String.eqb s' "") then None
      else Some (digitsValue 0%N s)
  end.

(** PRERELEASEIDENTIFIER: a numeric identifier, or identifier characters
    with at least one letter or hyphen among them. *)
Definition prereleaseIdentifier (s : string) : bool :=
  match numericIdentifier s with
  | Some _ => true
  | None => all isIdentChar s && any isLetterOrHyphen s
  end.

(** BUILDIDENTIFIER, [[0-9A-Za-z-]+]. *)
Definition buildIdentifier (s : string) : bool :=
  negb (String.eqb s "") && all isIdentChar s.

(** [s.split(c)]: the pieces between the occurrences of [c]. *)
Fixpoint splitOn (c : ascii) (s : string) : list string :=
  match s with
  | EmptyString => [EmptyString]
  | String d s' =>
      if Ascii.eqb c d then EmptyString :: splitOn c s'
      else
        match splitOn c s' with
        | [] => [String d EmptyString]
        | piece :: pieces => String d piece :: pieces
        end
  end.

(** The text before the first [c] and, when there is one, the text after. *)
Fixpoint cutAt (c : ascii) (s : string) : string * option string :=
  match s with
  | EmptyString => (EmptyString, None)
  | String d s' =>
      if Ascii.eqb c d then (EmptyString, Some s')
      else let (before, after) := cutAt c s' in (String d before, after)
  end.

Definition dropV (s : string) : string :=
  match s with
  | String "v" s' => s'
  | _ => s
  end.

Definition safe (n : N) : bool := (n <=? MAX_SAFE_INTEGER)%N.

(** [new SemVer(s)], [None] where the constructor throws. *)
Definition parse (s : string) : option SemVer :=
  if (MAX_LENGTH <? String.length s)%nat then None
  else
    let (versionText, buildText) := cutAt "+" (dropV (Js.trim s)) in
    let (mainText, prereleaseText) := cutAt "-" versionText in
    let pre :=
      match prereleaseText with
      | None => []
      | Some t => splitOn "." t
      end in
    let bld :=
      match buildText with
      | None => []
      | Some t => splitOn "." t
      end in
    match map numericIdentifier (splitOn "." mainText) with
    | [Some ma; Some mi; Some pa] =>
        if forallb prereleaseIdentifier pre && forallb buildIdentifier bld
           && safe ma && safe mi && safe pa
        then Some (mkSemVer ma mi pa pre bld)
        else None
    | _ => None
    end.

(** [semver.valid(s)], as a truth value. *)
Definition valid (s : string) : bool :=
  match parse s with
  | Some _ => true
  | None => false
  end.

Definition showN (n : N) : string := NilZero.string_of_uint (N.to_uint n).

(** [SemVer.prototype.toString()]: the [version] field, which leaves the
    build out. *)
Definition toString (v : SemVer) : string :=
  let main := showN (major v) ++ "." ++ showN (minor v) ++ "." ++ showN (patch v) in
  match prerelease v with
  | [] => main
  | ids => main ++ "-" ++ Js.join "." ids
  end.

(** The precedence order of the main version, [semver.lt] on versions
    without prerelease: the order the word "below" refers to. *)
Definition precedes (a b : SemVer) : bool :=
  match (major a ?= major b)%N with
  | Lt => true
  | Gt => false
  | Eq =>
      match (minor a ?= minor b)%N with
      | Lt => true
      | Gt => false
      | Eq => (patch a <? patch b)%N
      end
  end.

End Semver.

(* ================================================================= *)
(** ** Failures, promises and the host *)

(** What a rejected promise carries.  The source throws [Error] objects; each
    constructor stands for one of them:
    - [ExecutableNotFound]: 'Unable to locate executable file for either npx
      or auto';
    - [VersionUnparseable]: 'Unable to determine the auto version';
    - [VersionTooOld required command actual]: 'Minimum required auto version
      is ... Your auto (...) is ...';
    - [InvalidVersion]: the [TypeError] of [new SemVer] on a string that is
      not a version;
    - [SubprocessFailure code]: the rejection of [exec.exec] when the process
      exits with a non-zero code that is not ignored. *)
Inductive Failure : Type :=
| ExecutableNotFound
| VersionUnparseable
| VersionTooOld (required command actual : string)
| InvalidVersion (text : string)
| SubprocessFailure (exitCode : Z).

Inductive Settled (A : Type) : Type :=
| Fulfilled (value : A)
| Rejected (reason : Failure).

Arguments Fulfilled {A} value.
Arguments Rejected {A} reason.

(** [class AutoOutput]. *)
Record AutoOutput : Type := mkAutoOutput {
  stdout : string;
  exitCode : Z
}.

(** One call of [exec.exec]: the command line, the argument vector and the
    [ignoreReturnCode] option.  The [cwd] and [env] options have no bearing on
    the properties below and are left out. *)
Record Invocation : Type := mkInvocation {
  commandLine : string;
  execArgs : list string;
  ignoreReturnCode : bool
}.

(** What a terminated subprocess leaves: its exit code and the chunks its
    standard output delivered to the listener, in order. *)
Record Exit : Type := mkExit {
  code : Z;
  chunks : list string
}.

(** The machine the wrapper runs on: [which tool] is [io.which(tool, true)],
    [None] where it throws; [spawn] is the behaviour of the subprocess started
    from a command line and an argument vector. *)
Record Host : Type := mkHost {
  which : string -> option string;
  spawn : string -> list string -> Exit
}.

(** The observable effects of a computation: the subprocesses it started,
    oldest first, and the promises it created and never awaited, each with the
    value it settles to. *)
Record Effects : Type := mkEffects {
  spawned : list Invocation;
  floating : list (Settled AutoOutput)
}.

Definition noEffects : Effects := mkEffects [] [].

Module Async.

(** An [async] computation: from the effects so far to the settlement of
    its promise and the effects after it. *)
Definition Async (A : Type) : Type := Effects -> Settled A * Effects.

(** [return a]. *)
Definition ret {A} (a : A) : Async A := fun fx => (Fulfilled a, fx).

(** [throw e]. *)
Definition throw {A} (e : Failure) : Async A := fun fx => (Rejected e, fx).

(** [const x = await m; k x]: a rejection of [m] rejects the whole. *)
Definition bind {A B} (m : Async A) (k : A -> Async B) : Async B :=
  fun fx =>
    match m fx with
    | (Fulfilled a, fx') => k a fx'
    | (Rejected e, fx') => (Rejected e, fx')
    end.

(** A call whose promise is dropped: its effects happen, its settlement is
    observed by nobody and the caller goes on. *)
Definition unawaited (m : Async AutoOutput) : Async unit :=
  fun fx =>
    match m fx with
    | (settlement, fx') =>
        (Fulfilled tt, mkEffects (spawned fx') (floating fx' ++ [settlement]))
    end.

(** [exec.exec(commandLine, args, {ignoreReturnCode, listeners})]: starts the
    process, feeds its output to the listener and resolves to the exit code,
    or rejects on a non-zero code that is not ignored. *)
Definition exec (h : Host) (commandLine : string) (args : list string)
    (ignoreReturnCode : bool) : Async Exit :=
  fun fx =>
    let started :=
      mkEffects (spawned fx ++ [mkInvocation commandLine args ignoreReturnCode])
                (floating fx) in
    let ended := spawn h commandLine args in
    if negb ignoreReturnCode && negb (code ended =? 0)
    then (Rejected (SubprocessFailure (code ended)), started)
    else (Fulfilled ended, started).

(** The settlement of a computation started with no effects behind it. *)
Definition outcome {A} (m : Async A) : Settled A := fst (m noEffects).

(** The effects of a computation started with no effects behind it. *)
Definition effects {A} (m : Async A) : Effects := snd (m noEffects).

End Async.

Import Async.

Notation "x <- 'await' m ;; k" := (bind m (fun x => k))
  (at level 61, m at next level, right associativity).
Notation "'await' m ;; k" := (bind m (fun _ => k))
  (at level 61, m at next level, right associativity).

(* ================================================================= *)
(** ** [class AutoCommandManager] *)

(** The fields of the class.  [autoEnv] is the empty object throughout the
    source and only feeds the [env] option. *)
Record Manager : Type := mkManager {
  autoCommand : string;
  globalArgs : list string
}.

(** [export const MinimumAutoVersion = new SemVer('9.25.0')]. *)
Definition MinimumAutoVersion : Semver.SemVer :=
  Semver.mkSemVer 9 25 0 [] [].

(** The result of a public operation: [Promise<string>] or [Promise<void>]. *)
Inductive Returned : Type :=
| RetString (s : string)
| RetVoid.

Module AutoCommandManager.

Import Js.

Definition quote : string := String (ascii_of_nat 34) EmptyString.

(** [new AutoCommandManager()]. *)
Definition new : Manager := mkManager "" [].

(** The pattern [/\d+\.\d+(\.\d+)?/]. *)
Definition versionPattern : Regex.regex :=
  Regex.RSeq (Regex.RPlus Regex.digit)
    (Regex.RSeq (Regex.RChar (Regex.lit "."))
       (Regex.RSeq (Regex.RPlus Regex.digit)
          (Regex.ROpt
             (Regex.RSeq (Regex.RChar (Regex.lit ".")) (Regex.RPlus Regex.digit))))).

(** [commonChangelogReleaseArgs]: grows [args] in place. *)
Definition commonChangelogReleaseArgs (args : list string)
    (dryRun noVersionPrefix : bool) (name email from : string) : list string :=
  let args := if dryRun then push args ["--dry-run"] else args in
  let args := if noVersionPrefix then push args ["--no-version-prefix"] else args in
  let args := if truthy name then push args ["--name"; name] else args in
  let args := if truthy email then push args ["--email"; email] else args in
  let args := if truthy from then push args ["--from"; from] else args in
  args.

(** [commonPrArgs]: grows [args] in place. *)
Definition commonPrArgs (args : list string)
    (dryRun : bool) (pr : Z) (context : string) : list string :=
  let args := if dryRun then push args ["--dry-run"] else args in
  let args := if 0 <? pr then push args ["--pr"; toString pr] else args in
  let args := if truthy context then push args ["--context"; context] else args in
  args.

(** *** The argument list each operation builds before it calls [execAuto] *)

Definition info_args (listPlugins : bool) : list string :=
  let args := [AutoCommand_value cmd_info] in
  let args := if listPlugins then push args ["--list-plugins"] else args in
  args.

Definition version_args (onlyPublishWithReleaseVersion : bool) (from : string)
  : list string :=
  let args := ["version"] in
  let args := if onlyPublishWithReleaseVersion
              then push args ["--only-publish-with-release-label"] else args in
  let args := if truthy from then push args ["--from"; from] else args in
  args.

Definition changelog_args (dryRun noVersionPrefix : bool)
    (name email from to title message baseBranch : string) : list string :=
  let args := [AutoCommand_value cmd_changelog] in
  let args := commonChangelogReleaseArgs args dryRun noVersionPrefix name email from in
  let args := if truthy to then push args ["--to"; to] else args in
  let args := if truthy title then push args ["--title"; title] else args in
  let args := if truthy message then push args ["--message"; message] else args in
  let args := if truthy baseBranch then push args ["--base-branch"; baseBranch] else args in
  args.

Definition release_args (dryRun noVersionPrefix : bool)
    (name email from useVersion baseBranch : string) (preRelease : bool)
  : list string :=
  let args := [AutoCommand_value cmd_release] in
  let args := commonChangelogReleaseArgs args dryRun noVersionPrefix name email from in
  let args := if truthy useVersion then push args ["--use-version"; useVersion] else args in
  let args := if truthy baseBranch then push args ["--base-branch"; baseBranch] else args in
  let args := if preRelease then push args ["--pre-release"] else args in
  args.

Definition shipit_args (dryRun : bool) (baseBranch : string)
    (onlyGraduateWithReleaseLabel : bool) : list string :=
  let args := [AutoCommand_value cmd_shipit] in
  let args := if dryRun then push args ["--dry-run"] else args in
  let args := if truthy baseBranch then push args ["--base-branch"; baseBranch] else args in
  let args := if onlyGraduateWithReleaseLabel
              then push args ["--only-graduate-with-release-label"] else args in
  args.

Definition next_args (dryRun : bool) (message : string) : list string :=
  let args := [AutoCommand_value cmd_next] in
  let args := if dryRun then push args ["--dry-run"] else args in
  let args := if truthy message then push args ["--message"; message] else args in
  args.

Definition canary_args (dryRun : bool) (pr : Z) (build message : string)
    (force : bool) : list string :=
  let args := [AutoCommand_value cmd_canary] in
  let args := if dryRun then push args ["--dry-run"] else args in
  let args := if 0 <? pr then push args ["--pr"; toString pr] else args in
  let args := if truthy build then push args ["--build"; build] else args in
  let args := if truthy message then push args ["--message"; message] else args in
  let args := if force then push args ["--force"] else args in
  args.

Definition label_args (pr : Z) : list string :=
  let args := [AutoCommand_value cmd_label] in
  let args := if 0 <? pr then push args ["--pr"; toString pr] else args in
  args.

Definition latest_args (dryRun : bool) (baseBranch : string) : list string :=
  let args := [AutoCommand_value cmd_latest] in
  let args := if dryRun then push args ["--dry-run"] else args in
  let args := if truthy baseBranch then push args ["--base-branch"; baseBranch] else args in
  args.

Definition prStatus_args (dryRun : bool) (pr : Z) (context url sha : string)
    (state : PrState) (description : string) : list string :=
  let args := [AutoCommand_value cmd_prStatus] in
  let args := commonPrArgs args dryRun pr context in
  let args := if truthy url then push args ["--url"; url] else args in
  let args := if truthy sha then push args ["--sha"; sha] else args in
  let args := if truthy (PrState_value state)
              then push args ["--state"; PrState_value state] else args in
  let args := if truthy description then push args ["--description"; description] else args in
  args.

Definition prCheck_args (dryRun : bool) (pr : Z) (context url : string)
  : list string :=
  let args := [AutoCommand_value cmd_prCheck] in
  let args := commonPrArgs args dryRun pr context in
  let args := if truthy url then push args ["--url"; url] else args in
  args.

Definition prBody_args (dryRun : bool) (pr : Z) (context message : string)
  : list string :=
  let args := [AutoCommand_value cmd_prBody] in
  let args := commonPrArgs args dryRun pr context in
  let args := if truthy message then push args ["--message"; message] else args in
  args.

Definition comment_args (dryRun : bool) (pr : Z) (context message : string)
    (edit del : bool) : list string :=
  let args := [AutoCommand_value cmd_comment] in
  let args := commonPrArgs args dryRun pr context in
  let args := if truthy message then push args ["--message"; message] else args in
  let args := if edit then push args ["--edit"] else args in
  let args := if del then push args ["--delete"] else args in
  args.

(** *** The methods of an initialised manager *)

Section Methods.

Variable h : Host.
Variable this : Manager.

(** [execAuto(args, allowAllExitCodes = false)]: [None] is an omitted
    second argument. *)
Definition execAuto (args : list string) (allowAllExitCodes : option bool)
  : Async AutoOutput :=
  let allowAllExitCodes :=
    match allowAllExitCodes with
    | Some b => b
    | None => false
    end in
  let execArgs := (globalArgs this ++ args)%list in
  ended <- await exec h (quote ++ autoCommand this ++ quote) execArgs
                  allowAllExitCodes ;;
  ret (mkAutoOutput (join "" (chunks ended)) (code ended)).

Definition info (listPlugins : bool) : Async string :=
  output <- await execAuto (info_args listPlugins) None ;;
  ret (stdout output).

Definition version (onlyPublishWithReleaseVersion : bool) (from : string)
  : Async string :=
  output <- await execAuto (version_args onlyPublishWithReleaseVersion from) None ;;
  ret (stdout output).

Definition changelog (dryRun noVersionPrefix : bool)
    (name email from to title message baseBranch : string) : Async unit :=
  await execAuto
    (changelog_args dryRun noVersionPrefix name email from to title message
       baseBranch) None ;;
  ret tt.

Definition release (dryRun noVersionPrefix : bool)
    (name email from useVersion baseBranch : string) (preRelease : bool)
  : Async unit :=
  await execAuto
    (release_args dryRun noVersionPrefix name email from useVersion baseBranch
       preRelease) None ;;
  ret tt.

Definition shipit (dryRun : bool) (baseBranch : string)
    (onlyGraduateWithReleaseLabel : bool) : Async unit :=
  await execAuto (shipit_args dryRun baseBranch onlyGraduateWithReleaseLabel) None ;;
  ret tt.

Definition next (dryRun : bool) (message : string) : Async unit :=
  await execAuto (next_args dryRun message) None ;;
  ret tt.

Definition canary (dryRun : bool) (pr : Z) (build message : string)
    (force : bool) : Async unit :=
  await execAuto (canary_args dryRun pr build message force) None ;;
  ret tt.

Definition label (pr : Z) : Async string :=
  output <- await execAuto (label_args pr) None ;;
  ret (stdout output).

Definition latest (dryRun : bool) (baseBranch : string) : Async unit :=
  await execAuto (latest_args dryRun baseBranch) None ;;
  ret tt.

(** [prStatus], [prBody] and [comment] end in [this.execAuto(args)] with
    no [await] in front of it. *)
Definition prStatus (dryRun : bool) (pr : Z) (context url sha : string)
    (state : PrState) (description : string) : Async unit :=
  unawaited
    (execAuto (prStatus_args dryRun pr context url sha state description) None).

Definition prCheck (dryRun : bool) (pr : Z) (context url : string)
  : Async string :=
  output <- await execAuto (prCheck_args dryRun pr context url) None ;;
  ret (stdout output).

Definition prBody (dryRun : bool) (pr : Z) (context message : string)
  : Async unit :=
  unawaited (execAuto (prBody_args dryRun pr context message) None).

Definition comment (dryRun : bool) (pr : Z) (context message : string)
    (edit del : bool) : Async unit :=
  unawaited (execAuto (comment_args dryRun pr context message edit del) None).

End Methods.

(** *** Initialisation *)

Definition setAutoCommand (this : Manager) (command : string) : Manager :=
  mkManager command (globalArgs this).

Definition pushGlobalArgs (this : Manager) (items : list string) : Manager :=
  mkManager (autoCommand this) (push (globalArgs this) items).

(** The template literal [`[${plugins.join(' ')}]`]. *)
Definition bracketed (plugins : list string) : string :=
  "[" ++ join " " plugins ++ "]".

(** The four conditional pushes that open [initializeCommandManager]. *)
Definition initializeGlobalArgs (this : Manager)
    (repo owner githubApi : string) (plugins : list string) : Manager :=
  let this := if truthy repo then pushGlobalArgs this ["--repo"; repo] else this in
  let this := if truthy owner then pushGlobalArgs this ["--owner"; owner] else this in
  let this := if truthy githubApi
              then pushGlobalArgs this ["--githubApi"; githubApi] else this in
  let this := if (0 <? List.length plugins)%nat
              then pushGlobalArgs this ["--plugins"; bracketed plugins]
              else this in
  this.

(** The nested [try]/[catch] around the two [io.which] calls. *)
Definition locateAuto (h : Host) (this : Manager) : Async Manager :=
  match which h "npx" with
  | Some npx => ret (setAutoCommand this (npx ++ " auto"))
  | None =>
      match which h "auto" with
      | Some auto => ret (setAutoCommand this auto)
      | None => throw ExecutableNotFound
      end
  end.

(** [new SemVer(text)]. *)
Definition newSemVer (text : string) : Async Semver.SemVer :=
  match Semver.parse text with
  | Some v => ret v
  | None => throw (InvalidVersion text)
  end.

(** [a < b] on two [SemVer] objects.  The relational operator converts an
    object operand to a primitive; [SemVer] defines [toString] and no
    [valueOf] of its own, so both sides become their version strings and
    are compared as strings. *)
Definition semVerLt (a b : Semver.SemVer) : bool :=
  stringLt (Semver.toString a) (Semver.toString b).

(** The version check on the trimmed output of [--version]. *)
Definition checkVersion (this : Manager) (stdout : string) : Async unit :=
  if negb (includesChar LF stdout) then
    match Regex.search versionPattern stdout with
    | None => throw VersionUnparseable
    | Some match0 =>
        if negb (Semver.valid match0) then throw VersionUnparseable
        else
          autoVersion <- await newSemVer match0 ;;
          if semVerLt autoVersion MinimumAutoVersion
          then throw (VersionTooOld (Semver.toString MinimumAutoVersion)
                        (autoCommand this) (Semver.toString autoVersion))
          else ret tt
    end
  else ret tt.

(** [initializeCommandManager]; the result is [this] as the method leaves
    it. *)
Definition initializeCommandManager (h : Host) (this : Manager)
    (repo owner githubApi : string) (plugins : list string) : Async Manager :=
  let this := initializeGlobalArgs this repo owner githubApi plugins in
  this <- await locateAuto h this ;;
  autoOutput <- await execAuto h this ["--version"] None ;;
  let stdout := trim (stdout autoOutput) in
  await checkVersion this stdout ;;
  ret this.

(** [static createCommandManager], which the exported function of the same
    name calls. *)
Definition createCommandManager (h : Host)
    (repo owner githubApi : string) (plugins : list string) : Async Manager :=
  result <- await initializeCommandManager h new repo owner githubApi plugins ;;
  ret result.

End AutoCommandManager.

(* ================================================================= *)
(** ** The public interface as data *)

(** One constructor per method of [IAutoCommandManager], with the arguments
    of the method. *)
Inductive Call : Type :=
| Info (listPlugins : bool)
| Version (onlyPublishWithReleaseVersion : bool) (from : string)
| Changelog (dryRun noVersionPrefix : bool)
    (name email from to title message baseBranch : string)
| Release (dryRun noVersionPrefix : bool)
    (name email from useVersion baseBranch : string) (preRelease : bool)
| Shipit (dryRun : bool) (baseBranch : string) (onlyGraduateWithReleaseLabel : bool)
| Latest (dryRun : bool) (baseBranch : string)
| Next (dryRun : bool) (message : string)
| Canary (dryRun : bool) (pr : Z) (build message : string) (force : bool)
| Label (pr : Z)
| PrStatus (dryRun : bool) (pr : Z) (context url sha : string) (state : PrState)
    (description : string)
| PrCheck (dryRun : bool) (pr : Z) (context url : string)
| PrBody (dryRun : bool) (pr : Z) (context message : string)
| Comment (dryRun : bool) (pr : Z) (context message : string) (edit del : bool).

Module Interface.

Import AutoCommandManager.

(** The method a call names, applied to the arguments it carries. *)
Definition invoke (h : Host) (this : Manager) (c : Call) : Async Returned :=
  match c with
  | Info a => s <- await info h this a ;; ret (RetString s)
  | Version a b => s <- await version h this a b ;; ret (RetString s)
  | Changelog a b c d e f g i j =>
      await changelog h this a b c d e f g i j ;; ret RetVoid
  | Release a b c d e f g i => await release h this a b c d e f g i ;; ret RetVoid
  | Shipit a b c => await shipit h this a b c ;; ret RetVoid
  | Latest a b => await latest h this a b ;; ret RetVoid
  | Next a b => await next h this a b ;; ret RetVoid
  | Canary a b c d e => await canary h this a b c d e ;; ret RetVoid
  | Label a => s <- await label h this a ;; ret (RetString s)
  | PrStatus a b c d e f g => await prStatus h this a b c d e f g ;; ret RetVoid
  | PrCheck a b c d => s <- await prCheck h this a b c d ;; ret (RetString s)
  | PrBody a b c d => await prBody h this a b c d ;; ret RetVoid
  | Comment a b c d e f => await comment h this a b c d e f ;; ret RetVoid
  end.

(** The argument list the method of a call builds. *)
Definition commandArgs (c : Call) : list string :=
  match c with
  | Info a => info_args a
  | Version a b => version_args a b
  | Changelog a b c d e f g i j => changelog_args a b c d e f g i j
  | Release a b c d e f g i => release_args a b c d e f g i
  | Shipit a b c => shipit_args a b c
  | Latest a b => latest_args a b
  | Next a b => next_args a b
  | Canary a b c d e => canary_args a b c d e
  | Label a => label_args a
  | PrStatus a b c d e f g => prStatus_args a b c d e f g
  | PrCheck a b c d => prCheck_args a b c d
  | PrBody a b c d => prBody_args a b c d
  | Comment a b c d e f => comment_args a b c d e f
  end.

(** The [exec.exec] call that [execAuto] makes for an argument list when its
    second argument is omitted. *)
Definition invocationOf (this : Manager) (args : list string) : Invocation :=
  mkInvocation (quote ++ autoCommand this ++ quote) (globalArgs this ++ args) false.

(** What the subprocess of that call does on host [h]. *)
Definition exitOf (h : Host) (this : Manager) (args : list string) : Exit :=
  spawn h (quote ++ autoCommand this ++ quote) (globalArgs this ++ args).

(** The effects [fx] with one more subprocess started. *)
Definition logged (fx : Effects) (i : Invocation) : Effects :=
  mkEffects (spawned fx ++ [i]) (floating fx).

(** The command the two [io.which] calls settle on, when one of them
    resolves. *)
Definition located (h : Host) : option string :=
  match which h "npx" with
  | Some npx => Some (npx ++ " auto")
  | None => which h "auto"
  end.

(** The manager that initialisation works on once the command is known. *)
Definition configured (command repo owner githubApi : string)
    (plugins : list string) : Manager :=
  mkManager command (globalArgs (initializeGlobalArgs new repo owner githubApi plugins)).

(** The trimmed text the probe [--version] captures. *)
Definition versionOutput (h : Host) (this : Manager) : string :=
  Js.trim (Js.join "" (chunks (exitOf h this ["--version"]))).

(** Whether the method awaits its [execAuto] call. *)
Definition awaitsExec (c : Call) : bool :=
  match c with
  | PrStatus _ _ _ _ _ _ _ | PrBody _ _ _ _ | Comment _ _ _ _ _ _ => false
  | _ => true
  end.

End Interface.

(* ================================================================= *)
(** ** The command descriptors of the specification

    The specification describes each operation as a fixed subcommand token
    followed by optional flags, each gated by its own input.  [subcommand] and
    [optionalFlags] write that description down, flag by flag, so that the
    argument lists of the source can be compared with it. *)

Module Descriptor.

(** The input that guards a flag. *)
Inductive Input : Type :=
| OfBool (b : bool)
| OfString (s : string)
| OfPr (pr : Z).

Record Flag : Type := mkFlag {
  token : string;
  input : Input
}.

(** The guarding condition: a true boolean, a non-empty string, a
    pull-request number strictly greater than zero. *)
Definition holds (i : Input) : Prop :=
  match i with
  | OfBool b => b = true
  | OfString s => s <> ""
  | OfPr pr => 0 < pr
  end.

(** What follows the flag token: nothing for a boolean, the string itself,
    the decimal digits of the pull-request number. *)
Definition values (i : Input) : list string :=
  match i with
  | OfBool _ => []
  | OfString s => [s]
  | OfPr pr => [Js.toString pr]
  end.

(** The stretch of the argument vector that belongs to one flag: the token
    and its value when the guard holds, nothing at all when it does not. *)
Inductive Gated (f : Flag) : list string -> Prop :=
| Gated_present : holds (input f) -> Gated f (token f :: values (input f))
| Gated_absent : ~ holds (input f) -> Gated f [].

Definition subcommand (c : Call) : string :=
  match c with
  | Info _ => "info"
  | Version _ _ => "version"
  | Changelog _ _ _ _ _ _ _ _ _ => "changelog"
  | Release _ _ _ _ _ _ _ _ => "release"
  | Shipit _ _ _ => "shipit"
  | Latest _ _ => "latest"
  | Next _ _ => "next"
  | Canary _ _ _ _ _ => "canary"
  | Label _ => "label"
  | PrStatus _ _ _ _ _ _ _ => "pr-status"
  | PrCheck _ _ _ _ => "pr-check"
  | PrBody _ _ _ _ => "pr-body"
  | Comment _ _ _ _ _ _ => "comment"
  end.

Definition changelogReleaseFlags (dryRun noVersionPrefix : bool)
    (name email from : string) : list Flag :=
  [ mkFlag "--dry-run" (OfBool dryRun);
    mkFlag "--no-version-prefix" (OfBool noVersionPrefix);
    mkFlag "--name" (OfString name);
    mkFlag "--email" (OfString email);
    mkFlag "--from" (OfString from) ].

Definition prFlags (dryRun : bool) (pr : Z) (context : string) : list Flag :=
  [ mkFlag "--dry-run" (OfBool dryRun);
    mkFlag "--pr" (OfPr pr);
    mkFlag "--context" (OfString context) ].

Definition optionalFlags (c : Call) : list Flag :=
  match c with
  | Info listPlugins =>
      [ mkFlag "--list-plugins" (OfBool listPlugins) ]
  | Version onlyPublishWithReleaseVersion from =>
      [ mkFlag "--only-publish-with-release-label"
          (OfBool onlyPublishWithReleaseVersion);
        mkFlag "--from" (OfString from) ]
  | Changelog dryRun noVersionPrefix name email from to title message baseBranch =>
      changelogReleaseFlags dryRun noVersionPrefix name email from ++
      [ mkFlag "--to" (OfString to);
        mkFlag "--title" (OfString title);
        mkFlag "--message" (OfString message);
        mkFlag "--base-branch" (OfString baseBranch) ]
  | Release dryRun noVersionPrefix name email from useVersion baseBranch preRelease =>
      changelogReleaseFlags dryRun noVersionPrefix name email from ++
      [ mkFlag "--use-version" (OfString useVersion);
        mkFlag "--base-branch" (OfString baseBranch);
        mkFlag "--pre-release" (OfBool preRelease) ]
  | Shipit dryRun baseBranch onlyGraduateWithReleaseLabel =>
      [ mkFlag "--dry-run" (OfBool dryRun);
        mkFlag "--base-branch" (OfString baseBranch);
        mkFlag "--only-graduate-with-release-label"
          (OfBool onlyGraduateWithReleaseLabel) ]
  | Latest dryRun baseBranch =>
      [ mkFlag "--dry-run" (OfBool dryRun);
        mkFlag "--base-branch" (OfString baseBranch) ]
  | Next dryRun message =>
      [ mkFlag "--dry-run" (OfBool dryRun);
        mkFlag "--message" (OfString message) ]
  | Canary dryRun pr build message force =>
      [ mkFlag "--dry-run" (OfBool dryRun);
        mkFlag "--pr" (OfPr pr);
        mkFlag "--build" (OfString build);
        mkFlag "--message" (OfString message);
        mkFlag "--force" (OfBool force) ]
  | Label pr =>
      [ mkFlag "--pr" (OfPr pr) ]
  | PrStatus dryRun pr context url sha state description =>
      prFlags dryRun pr context ++
      [ mkFlag "--url" (OfString url);
        mkFlag "--sha" (OfString sha);
        mkFlag "--state" (OfString (PrState_value state));
        mkFlag "--description" (OfString description) ]
  | PrCheck dryRun pr context url =>
      prFlags dryRun pr context ++
      [ mkFlag "--url" (OfString url) ]
  | PrBody dryRun pr context message =>
      prFlags dryRun pr context ++
      [ mkFlag "--message" (OfString message) ]
  | Comment dryRun pr context message edit del =>
      prFlags dryRun pr context ++
      [ mkFlag "--message" (OfString message);
        mkFlag "--edit" (OfBool edit);
        mkFlag "--delete" (OfBool del) ]
  end.

(** The guarding condition as the truth value the code tests. *)
Definition guard (i : Input) : bool :=
  match i with
  | OfBool b => b
  | OfString s => Js.truthy s
  | OfPr pr => 0 <? pr
  end.

(** The stretch of one flag, computed. *)
Definition render (f : Flag) : list string :=
  if guard (input f) then token f :: values (input f) else [].

(** The pair of a flag and its value, when the value is there to give. *)
Definition optionalPair (flag value : string) : list string :=
  if Js.truthy value then [flag; value] else [].

(** [x] is immediately followed by [y] somewhere in [l]. *)
Fixpoint adjacent (x y : string) (l : list string) : Prop :=
  match l with
  | a :: ((b :: _) as rest) => (a = x /\ b = y) \/ adjacent x y rest
  | _ => False
  end.

End Descriptor.

(* ================================================================= *)
(** ** Example hosts *)

Module Examples.

(** A host on which [npx] resolves and every subprocess exits with [code],
    having printed [out] in one chunk. *)
Definition hostPrinting (code : Z) (out : string) : Host :=
  mkHost (fun tool => if String.eqb tool "npx" then Some "/usr/bin/npx" else None)
         (fun _ _ => mkExit code [out]).

(** A manager as initialisation leaves it on such a host for the
    repository [auto-action] of [terradatum]. *)
Definition manager : Manager :=
  mkManager "/usr/bin/npx auto" ["--repo"; "auto-action"; "--owner"; "terradatum"].

Definition LFs : string := String Js.LF EmptyString.

(** A banner of the launcher in front of an old version number, on two
    lines. *)
Definition bannerOutput : string :=
  "npx: installed 1 in 2.1s" ++ LFs ++ "8.0.0" ++ LFs.

(** A one-line output with a trailing line feed. *)
Definition stableOutput : string := "v9.25.0 stable" ++ LFs.

(** The manager that initialisation configures on such a host for the
    repository [auto-action] of [terradatum]. *)
Definition configuredManager : Manager :=
  Interface.configured "/usr/bin/npx auto" "auto-action" "terradatum" "" [].

Definition v10_0_0 : Semver.SemVer := Semver.mkSemVer 10 0 0 [] [].
Definition v9_3_0 : Semver.SemVer := Semver.mkSemVer 9 3 0 [] [].

End Examples.

(* ================================================================= *)
(** ** The environment [execAuto] hands to the subprocess

    [execAuto] builds the [env] option by copying [process.env] into a fresh
    object and then copying [this.autoEnv] over it.  An object with string
    values is modelled by the list of its own properties; [get] is the lookup
    of an own property and [set] the assignment [o[k] = v]. *)

Module Env.

Definition Obj : Type := list (string * string).

Fixpoint get (o : Obj) (k : string) : option string :=
  match o with
  | [] => None
  | (k', v) :: o' => if String.eqb k k' then Some v else get o' k
  end.

(** Replace the value of an existing property, or add the property. *)
Fixpoint put (o : Obj) (k v : string) : Obj :=
  match o with
  | [] => [(k, v)]
  | (k', v') :: o' =>
      if String.eqb k k' then (k, v) :: o' else (k', v') :: put o' k v
  end.

(** [o[k] = v] for a string [v] on an object created by [{}]: the key
    [__proto__] reaches the setter of [Object.prototype], which ignores a
    value that is not an object, so no property is created for it. *)
Definition set (o : Obj) (k v : string) : Obj :=
  if String.eqb k "__proto__" then o else put o k v.

(** [Object.keys(o)]. *)
Definition keys (o : Obj) : list string := map fst o.

(** [for (const key of Object.keys(src)) { env[key] = src[key] }].  The keys
    come from [src], so the lookup always finds a value. *)
Definition copyInto (src env : Obj) : Obj :=
  fold_left
    (fun env key =>
       match get src key with
       | Some v => set env key v
       | None => env
       end)
    (keys src) env.

(** The [env] that [execAuto] builds from [process.env] and [this.autoEnv]. *)
Definition execEnv (processEnv autoEnv : Obj) : Obj :=
  copyInto autoEnv (copyInto processEnv []).

(** [private autoEnv = {}], never assigned again. *)
Definition autoEnv : Obj := [].

End Env.

(* ================================================================= *)
(** ** The shape of version texts *)

Module VersionText.

(** A non-empty run of decimal digits. *)
Definition isDigits (s : string) : bool :=
  negb (String.eqb s "") && Semver.all Regex.digit s.

(** The number of occurrences of a character. *)
Fixpoint count (c : ascii) (s : string) : nat :=
  match s with
  | EmptyString => 0%nat
  | String d s' => ((if Ascii.eqb c d then 1 else 0) + count c s')%nat
  end.

(** [major.minor] or [major.minor.patch], each part a run of digits. *)
Definition isVersionLike (m : string) : Prop :=
  exists a b : string,
    isDigits a = true /\ isDigits b = true
    /\ (m = a ++ "." ++ b
        \/ exists c : string, isDigits c = true /\ m = a ++ "." ++ b ++ "." ++ c).

(** The text does not go on with a digit. *)
Definition stops (post : string) : bool :=
  match post with
  | EmptyString => true
  | String c _ => negb (Regex.digit c)
  end.

(** The text goes on neither with a digit nor with a dot and a digit. *)
Definition stopsVersion (post : string) : bool :=
  match post with
  | EmptyString => true
  | String c post' =>
      negb (Regex.digit c) && (negb (Ascii.eqb c ".") || stops post')
  end.

(** The characters of a version text: digits and dots. *)
Definition plainChar (c : ascii) : bool := Regex.digit c || Ascii.eqb "." c.

(** A version without prerelease and build. *)
Definition plain (major minor patch : N) : Semver.SemVer :=
  Semver.mkSemVer major minor patch [] [].

End VersionText.

(* ================================================================= *)
(** ** Values as the specification words them *)

Module Wording.

(** "Space-joined": the items in their order, every item after the first
    preceded by one space. *)
Definition spaceJoined (items : list string) : string :=
  match items with
  | [] => ""
  | first :: others =>
      first ++ fold_right (fun item rest => " " ++ item ++ rest) "" others
  end.

(** "The bracketed space-joined plugin list". *)
Definition bracketedList (items : list string) : string :=
  "[" ++ spaceJoined items ++ "]".

(** [Number.MAX_SAFE_INTEGER], 2^53 - 1: up to it every integer is a
    [number] of its own, and [Number.prototype.toString] prints its exact
    decimal digits. *)
Definition MAX_SAFE_INTEGER : Z := 9007199254740991.

End Wording.

(* ================================================================= *)
(** ** More example hosts *)

Module Hosts.

(** A host on which neither [npx] nor [auto] resolves. *)
Definition bare : Host :=
  mkHost (fun _ => None) (fun _ _ => mkExit 0 []).

(** A host with a directly installed [auto] and no [npx]; the tool prints
    its version in two chunks. *)
Definition autoOnly : Host :=
  mkHost (fun tool => if String.eqb tool "auto" then Some "/usr/local/bin/auto" else None)
         (fun _ _ => mkExit 0 ["9.26"; ".1"]).

(** A process environment and an overlay. *)
Definition processEnv : Env.Obj := [("PATH", "/usr/bin"); ("GH_TOKEN", "old")].
Definition overlay : Env.Obj := [("GH_TOKEN", "new")].

End Hosts.

(* ================================================================= *)
(** * Properties *)

Import AutoCommandManager Interface.

(** ** Pushing and truthiness *)

Lemma truthy_true_iff (s : string) : Js.truthy s = true <-> s <> "".
Proof.
  destruct s; cbn; split; intros H; congruence.
Qed.

Lemma truthy_false_iff (s : string) : Js.truthy s = false <-> s = "".
Proof.
  destruct s; cbn; split; intros H; congruence.
Qed.

Lemma cond_push (b : bool) (args items : list string) :
  (if b then Js.push args items else args) = (args ++ (if b then items else []))%list.
Proof.
  destruct b; unfold Js.push; [reflexivity | now rewrite app_nil_r].
Qed.

Lemma toString_nonempty (n : Z) : Js.toString n <> "".
Proof.
  unfold Js.toString, NilZero.string_of_int.
  destruct (Z.to_int n) as [d | d].
  - unfold NilZero.string_of_uint. destruct d; cbn; discriminate.
  - discriminate.
Qed.

(** The digits [toString] prints read back as the number: the rendering is
    the plain decimal one. *)
Lemma toString_reads_back (n : Z) :
  option_map Z.of_int (NilZero.int_of_string (Js.toString n)) = Some n.
Proof.
  unfold Js.toString.
  rewrite NilZero.isi.
  - cbn. now rewrite DecimalZ.of_to.
  - destruct n; cbn; try discriminate.
    intros [= H]. now apply Unsigned.to_uint_nonnil in H.
  - destruct n; cbn; try discriminate.
    intros [= H]. now apply Unsigned.to_uint_nonnil in H.
Qed.

Lemma toString_injective (a b : Z) : Js.toString a = Js.toString b -> a = b.
Proof.
  intros H.
  pose proof (toString_reads_back a) as Ha.
  pose proof (toString_reads_back b) as Hb.
  rewrite H in Ha. congruence.
Qed.

(** ** Global arguments *)

Section GlobalArgs.

Import Descriptor.

Variables (repo owner githubApi : string) (plugins : list string).

#[local] Abbreviation built :=
  (globalArgs (initializeGlobalArgs new repo owner githubApi plugins)).

Lemma built_eq :
  built =
    (optionalPair "--repo" repo ++ optionalPair "--owner" owner ++
     optionalPair "--githubApi" githubApi ++
     match plugins with
     | [] => []
     | _ :: _ => ["--plugins"; bracketed plugins]
     end)%list.
Proof.
  unfold initializeGlobalArgs, optionalPair.
  destruct repo, owner, githubApi, plugins; reflexivity.
Qed.

Lemma built_no_empty : Forall (fun a => a <> "") built.
Proof.
  rewrite built_eq. unfold optionalPair, bracketed.
  destruct repo, owner, githubApi, plugins; cbn;
    repeat constructor; discriminate.
Qed.

Lemma adjacent_In_r (x y : string) (l : list string) :
  adjacent x y l -> In y l.
Proof.
  induction l as [| a l IH]; cbn; [tauto |].
  destruct l as [| b l']; [tauto |].
  intros [[_ ->] | H].
  - right; left; reflexivity.
  - right. apply IH, H.
Qed.

Lemma append_empty_right (a : string) : (a ++ "")%string = a.
Proof. induction a as [| x a IH]; cbn; [reflexivity | now rewrite IH]. Qed.

(** [join(' ')] puts the items in their order with one space between
    neighbours. *)
Lemma join_spaceJoined (items : list string) :
  Js.join " " items = Wording.spaceJoined items.
Proof.
  unfold Js.join. destruct items as [| first others]; [reflexivity |].
  revert first. induction others as [| item others IH]; intros first.
  - cbn. now rewrite append_empty_right.
  - change (String.concat " " (first :: item :: others))
      with (first ++ " " ++ String.concat " " (item :: others))%string.
    rewrite (IH item). reflexivity.
Qed.

Lemma bracketed_wording (items : list string) :
  bracketed items = Wording.bracketedList items.
Proof.
  unfold bracketed, Wording.bracketedList. now rewrite join_spaceJoined.
Qed.

(** C4: the global argument list is the four pairs [--repo repo],
    [--owner owner], [--githubApi githubApi] and [--plugins [p1 p2 ...]] in
    that order, each present exactly when its input is non-empty; the value
    after [--plugins] is the plugin list in its order, one space between
    neighbours, between square brackets; as a consequence each flag is
    immediately followed by its value in the list if and only if its input is
    non-empty. *)
Theorem globalArgs_construction :
  built =
    (optionalPair "--repo" repo ++ optionalPair "--owner" owner ++
     optionalPair "--githubApi" githubApi ++
     match plugins with
     | [] => []
     | _ :: _ => ["--plugins"; ("[" ++ Wording.spaceJoined plugins ++ "]")%string]
     end)%list
  /\ (adjacent "--repo" repo built <-> repo <> "")
  /\ (adjacent "--owner" owner built <-> owner <> "")
  /\ (adjacent "--githubApi" githubApi built <-> githubApi <> "")
  /\ (adjacent "--plugins" ("[" ++ Wording.spaceJoined plugins ++ "]") built
      <-> plugins <> []).
Proof.
  change ("[" ++ Wording.spaceJoined plugins ++ "]")%string
    with (Wording.bracketedList plugins).
  rewrite <- (bracketed_wording plugins).
  split; [exact built_eq |].
  assert (Hne : forall x y, adjacent x y built -> y <> "").
  { intros x y H. apply adjacent_In_r in H.
    pose proof built_no_empty as F. rewrite Forall_forall in F. now apply F. }
  repeat split; try (intros H; eapply Hne; exact H).
  - intros H. rewrite built_eq. unfold optionalPair.
    destruct repo; [congruence |]. cbn. destruct owner, githubApi, plugins; cbn; auto.
  - intros H. rewrite built_eq. unfold optionalPair.
    destruct owner; [congruence |].
    destruct repo, githubApi, plugins; cbn; auto 6.
  - intros H. rewrite built_eq. unfold optionalPair.
    destruct githubApi; [congruence |].
    destruct repo, owner, plugins; cbn; auto 8.
  - rewrite built_eq. unfold optionalPair, bracketed.
    destruct plugins; [| discriminate].
    destruct repo, owner, githubApi; cbn; intuition discriminate.
  - intros H. rewrite built_eq. unfold optionalPair.
    destruct plugins; [congruence |].
    destruct repo, owner, githubApi; cbn; auto 10.
Qed.

End GlobalArgs.

(** C4 at an input with two plugins and no API address: the pairs in their
    order, the plugins between brackets with one space between them. *)
Lemma globalArgs_construction_witness :
  globalArgs (initializeGlobalArgs new "auto-action" "terradatum" ""
                ["npm"; "released"]) =
    ["--repo"; "auto-action"; "--owner"; "terradatum";
     "--plugins"; "[npm released]"]
  /\ (Descriptor.adjacent "--githubApi" ""
        (globalArgs (initializeGlobalArgs new "auto-action" "terradatum" ""
                       ["npm"; "released"]))
      <-> "" <> "")
  /\ (Descriptor.adjacent "--plugins" "[npm released]"
        (globalArgs (initializeGlobalArgs new "auto-action" "terradatum" ""
                       ["npm"; "released"]))
      <-> ["npm"; "released"] <> []).
Proof.
  destruct (globalArgs_construction "auto-action" "terradatum" ""
              ["npm"; "released"]) as (Hbuilt & _ & _ & Hapi & Hplugins).
  split; [exact Hbuilt |]. split; [exact Hapi | exact Hplugins].
Defined.

(** ** Running [execAuto] *)

Section Execution.

Variable h : Host.
Variable this : Manager.

Lemma execAuto_default (args : list string) (fx : Effects) :
  execAuto h this args None fx =
    (if code (exitOf h this args) =? 0
     then Fulfilled (mkAutoOutput (Js.join "" (chunks (exitOf h this args))) (code (exitOf h this args)))
     else Rejected (SubprocessFailure (code (exitOf h this args))),
     logged fx (invocationOf this args)).
Proof.
  unfold execAuto, bind, exec, exitOf, logged, invocationOf, ret. cbn.
  destruct (code _ =? 0); reflexivity.
Qed.

Lemma execAuto_effects (args : list string) (fx : Effects) :
  snd (execAuto h this args None fx) = logged fx (invocationOf this args).
Proof. now rewrite execAuto_default. Qed.

Lemma execAuto_fulfilled (args : list string) (fx : Effects) :
  code (exitOf h this args) = 0 ->
  fst (execAuto h this args None fx) =
    Fulfilled (mkAutoOutput (Js.join "" (chunks (exitOf h this args))) 0).
Proof.
  intros H. rewrite execAuto_default, H. reflexivity.
Qed.

Lemma execAuto_rejected (args : list string) (fx : Effects) :
  code (exitOf h this args) <> 0 ->
  fst (execAuto h this args None fx) =
    Rejected (SubprocessFailure (code (exitOf h this args))).
Proof.
  intros H. rewrite execAuto_default.
  destruct (Z.eqb_spec (code (exitOf h this args)) 0); [contradiction | reflexivity].
Qed.

(** Every method runs [execAuto] once, on the argument list it built. *)
Lemma invoke_effects (c : Call) (fx : Effects) :
  snd (invoke h this c fx) =
    if awaitsExec c
    then logged fx (invocationOf this (commandArgs c))
    else mkEffects (spawned fx ++ [invocationOf this (commandArgs c)])
                   (floating fx ++ [fst (execAuto h this (commandArgs c) None fx)]).
Proof.
  destruct c; cbn;
    unfold info, version, changelog, release, shipit, latest, next, canary, label,
           prStatus, prCheck, prBody, comment, unawaited, bind, ret;
    rewrite execAuto_default; cbn;
    destruct (code _ =? 0); reflexivity.
Qed.

(** The settlement of a method that awaits is decided by the exit code. *)
Lemma invoke_awaited_outcome (c : Call) (fx : Effects) :
  awaitsExec c = true ->
  fst (invoke h this c fx) =
    if code (exitOf h this (commandArgs c)) =? 0
    then Fulfilled
           (match c with
            | Info _ | Version _ _ | Label _ | PrCheck _ _ _ _ =>
                RetString (Js.join "" (chunks (exitOf h this (commandArgs c))))
            | _ => RetVoid
            end)
    else Rejected (SubprocessFailure (code (exitOf h this (commandArgs c)))).
Proof.
  destruct c; cbn; intros Haw; try discriminate;
    unfold info, version, changelog, release, shipit, latest, next, canary, label,
           prCheck, bind, ret;
    rewrite execAuto_default; cbn;
    destruct (code _ =? 0); reflexivity.
Qed.

(** The settlement of a method that does not await is always a fulfilment. *)
Lemma invoke_unawaited_outcome (c : Call) (fx : Effects) :
  awaitsExec c = false ->
  fst (invoke h this c fx) = Fulfilled RetVoid.
Proof.
  destruct c; cbn; intros Haw; try discriminate;
    unfold prStatus, prBody, comment, unawaited, bind, ret;
    rewrite execAuto_default; reflexivity.
Qed.

End Execution.

Lemma invoke_spawned
    (h : Host) (this : Manager) (c : Call) (fx : Effects) :
  spawned (snd (invoke h this c fx)) =
    (spawned fx ++ [invocationOf this (commandArgs c)])%list.
Proof.
  rewrite invoke_effects. destruct (awaitsExec c); reflexivity.
Qed.

(** C5: whatever the operation and its inputs, it starts exactly one
    subprocess, and the argument vector of that subprocess is the manager's
    global argument list followed by the arguments the operation built. *)
Theorem global_args_precede_command_args
    (h : Host) (this : Manager) (c : Call) (fx : Effects) :
  spawned (snd (invoke h this c fx)) =
    (spawned fx ++
     [mkInvocation (quote ++ autoCommand this ++ quote)
        (globalArgs this ++ commandArgs c) false])%list.
Proof.
  exact (invoke_spawned h this c fx).
Qed.

(** The probe [--version] of the initialisation goes the same way. *)
Lemma version_probe_has_global_args (h : Host) (this : Manager) (fx : Effects) :
  spawned (snd (execAuto h this ["--version"] None fx)) =
    (spawned fx ++
     [mkInvocation (quote ++ autoCommand this ++ quote)
        (globalArgs this ++ ["--version"]) false])%list.
Proof. now rewrite execAuto_effects. Qed.

(** ** Exit codes *)

(** C10: every public operation leaves [ignoreReturnCode] off in the
    subprocess it starts, and an operation that awaits its [execAuto] call is
    rejected with the exit code whenever that code is not zero. *)
Theorem nonzero_exit_is_failure (h : Host) (this : Manager) (c : Call) :
  Forall (fun i => ignoreReturnCode i = false)
         (spawned (effects (invoke h this c)))
  /\ (awaitsExec c = true ->
      code (exitOf h this (commandArgs c)) <> 0 ->
      outcome (invoke h this c) =
        Rejected (SubprocessFailure (code (exitOf h this (commandArgs c))))).
Proof.
  split.
  - unfold effects. rewrite invoke_spawned.
    repeat constructor.
  - intros Haw Hcode. unfold outcome.
    rewrite invoke_awaited_outcome by exact Haw.
    destruct (Z.eqb_spec (code (exitOf h this (commandArgs c))) 0);
      [contradiction | reflexivity].
Qed.

Lemma nonzero_exit_is_failure_witness :
  awaitsExec (Info true) = true
  /\ code (exitOf (Examples.hostPrinting 1 "") Examples.manager
             (commandArgs (Info true))) <> 0
  /\ Forall (fun i => ignoreReturnCode i = false)
       (spawned (effects (invoke (Examples.hostPrinting 1 "") Examples.manager
                            (Info true))))
  /\ outcome (invoke (Examples.hostPrinting 1 "") Examples.manager (Info true)) =
       Rejected (SubprocessFailure 1).
Proof.
  assert (Haw : awaitsExec (Info true) = true) by reflexivity.
  assert (Hcode : code (exitOf (Examples.hostPrinting 1 "") Examples.manager
                          (commandArgs (Info true))) <> 0) by (cbn; lia).
  destruct (nonzero_exit_is_failure (Examples.hostPrinting 1 "") Examples.manager
              (Info true)) as [Hoff Hfail].
  repeat (split; [assumption |]).
  exact (Hfail Haw Hcode).
Defined.

(** ** The operations that do not await *)

(** A method that drops the promise of [execAuto] is fulfilled whatever the
    subprocess does; a failure of the subprocess stays on the dropped
    promise. *)
Lemma unawaited_failure_floats (h : Host) (this : Manager) (c : Call) :
  awaitsExec c = false ->
  code (exitOf h this (commandArgs c)) <> 0 ->
  outcome (invoke h this c) = Fulfilled RetVoid
  /\ floating (effects (invoke h this c)) =
       [Rejected (SubprocessFailure (code (exitOf h this (commandArgs c))))].
Proof.
  intros Haw Hcode. unfold outcome, effects. split.
  - now apply invoke_unawaited_outcome.
  - rewrite invoke_effects, Haw. cbn.
    now rewrite execAuto_rejected.
Qed.

(** C3: on a host where the subprocess exits with code 1, [prStatus],
    [prBody] and [comment] are each fulfilled; the rejection carrying the exit
    code is left on a promise that nobody awaits, so the caller does not see
    it. *)
Theorem fire_and_forget_failure_not_propagated :
  Forall
    (fun c =>
       code (exitOf (Examples.hostPrinting 1 "") Examples.manager (commandArgs c)) = 1
       /\ outcome (invoke (Examples.hostPrinting 1 "") Examples.manager c) =
            Fulfilled RetVoid
       /\ floating (effects (invoke (Examples.hostPrinting 1 "") Examples.manager c)) =
            [Rejected (SubprocessFailure 1)])
    [ PrStatus false 42 "ci" "" "" pending "";
      PrBody false 42 "ci" "done";
      Comment false 42 "ci" "done" false true ].
Proof.
  repeat constructor;
    apply (unawaited_failure_floats (Examples.hostPrinting 1 "") Examples.manager);
    (reflexivity || (cbn; lia)).
Qed.

(** ** The two scenarios *)

(** C7: [release] with [dryRun = true], [noVersionPrefix = false],
    [name = "bot"], [email = "bot@x.com"], [from = "v1.0.0"], no version
    override, no base branch and [preRelease = false] builds
    [release --dry-run --name bot --email bot@x.com --from v1.0.0], and the
    subprocess receives it after the global arguments. *)
Theorem release_scenario (h : Host) (this : Manager) (fx : Effects) :
  release_args true false "bot" "bot@x.com" "v1.0.0" "" "" false =
    ["release"; "--dry-run"; "--name"; "bot"; "--email"; "bot@x.com";
     "--from"; "v1.0.0"]
  /\ map execArgs
       (spawned (snd (release h this true false "bot" "bot@x.com" "v1.0.0" "" ""
                        false fx))) =
     (map execArgs (spawned fx) ++
      [(globalArgs this ++
        ["release"; "--dry-run"; "--name"; "bot"; "--email"; "bot@x.com";
         "--from"; "v1.0.0"])%list])%list.
Proof.
  split; [reflexivity |].
  unfold release, bind. rewrite execAuto_default.
  destruct (code _ =? 0); cbn; now rewrite map_app.
Qed.

(** C8: [comment] with [dryRun = false], [pr = 42], [context = "ci"],
    [message = "done"], [edit = false] and [del = true] builds
    [comment --pr 42 --context ci --message done --delete]; the pull-request
    number is the element ["42"] of its own.  The subprocess receives the
    list after the global arguments. *)
Theorem comment_scenario (h : Host) (this : Manager) (fx : Effects) :
  comment_args false 42 "ci" "done" false true =
    ["comment"; "--pr"; "42"; "--context"; "ci"; "--message"; "done"; "--delete"]
  /\ map execArgs
       (spawned (snd (comment h this false 42 "ci" "done" false true fx))) =
     (map execArgs (spawned fx) ++
      [(globalArgs this ++
        ["comment"; "--pr"; "42"; "--context"; "ci"; "--message"; "done";
         "--delete"])%list])%list.
Proof.
  split; [reflexivity |].
  unfold comment, unawaited. rewrite execAuto_default.
  cbn. now rewrite map_app.
Qed.

(** ** Flag gating *)

Section Gating.

Import Descriptor.

Lemma guard_holds (i : Input) : guard i = true <-> holds i.
Proof.
  destruct i as [b | s | pr]; cbn.
  - tauto.
  - apply truthy_true_iff.
  - apply Z.ltb_lt.
Qed.

Lemma Gated_render (f : Flag) : Gated f (render f).
Proof.
  unfold render. destruct (guard (input f)) eqn:G.
  - apply Gated_present. now apply guard_holds.
  - apply Gated_absent. rewrite <- guard_holds. congruence.
Qed.

Lemma Forall2_Gated_render (fs : list Flag) : Forall2 Gated fs (map render fs).
Proof.
  induction fs as [| f fs IH]; cbn; constructor; auto using Gated_render.
Qed.

(** A stretch is empty exactly when the guard fails, and it never holds an
    empty string when the token is not empty. *)
Lemma Gated_nonempty_iff (f : Flag) (seg : list string) :
  Gated f seg -> (seg <> [] <-> holds (input f)).
Proof.
  intros [Hh | Hn]; split; intros H; try assumption; try discriminate.
  - congruence.
  - contradiction.
Qed.

Lemma render_no_empty (f : Flag) :
  token f <> "" -> Forall (fun a => a <> "") (render f).
Proof.
  intros Ht. unfold render.
  destruct (guard (input f)) eqn:G; [| constructor].
  constructor; [exact Ht |].
  destruct (input f) as [b | s | pr]; cbn in *.
  - constructor.
  - repeat constructor. now apply truthy_true_iff.
  - repeat constructor. apply toString_nonempty.
Qed.

Lemma concat_render_no_empty (fs : list Flag) :
  Forall (fun f => token f <> "") fs ->
  Forall (fun a => a <> "") (List.concat (map render fs)).
Proof.
  induction 1 as [| f fs Hf _ IH]; cbn; [constructor |].
  apply Forall_app. split; [now apply render_no_empty | exact IH].
Qed.

Lemma optionalFlags_tokens (c : Call) :
  Forall (fun f => token f <> "") (optionalFlags c).
Proof.
  destruct c; cbn; repeat constructor; discriminate.
Qed.

(** The argument list of the source is the subcommand token followed by the
    stretches of the descriptor's flags. *)
Lemma commandArgs_render (c : Call) :
  commandArgs c = subcommand c :: List.concat (map render (optionalFlags c)).
Proof.
  destruct c;
    unfold commandArgs, info_args, version_args, changelog_args, release_args,
           shipit_args, latest_args, next_args, canary_args, label_args,
           prStatus_args, prCheck_args, prBody_args, comment_args,
           commonChangelogReleaseArgs, commonPrArgs;
    cbv zeta; rewrite !cond_push;
    unfold render; cbn; rewrite <- ?app_assoc; cbn;
    rewrite ?app_nil_r; reflexivity.
Qed.

(** C6: for every operation and every input the argument vector is the
    subcommand token followed by one stretch per optional flag, in the order
    of the flags; the stretch of a flag is the flag token followed by its value
    when the guarding condition holds (true boolean, non-empty string,
    pull-request number above zero) and is empty otherwise, so a number that
    is zero or negative leaves [--pr] out; no element of the vector is the
    empty string. *)
Theorem flag_gating (c : Call) :
  exists stretches : list (list string),
    commandArgs c = subcommand c :: List.concat stretches
    /\ Forall2 Gated (optionalFlags c) stretches
    /\ Forall2 (fun f seg => seg <> [] <-> holds (input f)) (optionalFlags c) stretches
    /\ Forall (fun a => a <> "") (commandArgs c).
Proof.
  exists (map render (optionalFlags c)).
  split; [apply commandArgs_render |].
  split; [apply Forall2_Gated_render |].
  split.
  - generalize (optionalFlags c). intros fs.
    induction fs as [| f fs IH]; cbn; constructor; [| exact IH].
    apply Gated_nonempty_iff, Gated_render.
  - rewrite commandArgs_render. constructor.
    + destruct c; discriminate.
    + apply concat_render_no_empty, optionalFlags_tokens.
Qed.

(** A flag whose guard holds has its token in the argument vector. *)
Lemma held_flag_is_present (c : Call) (f : Flag) :
  In f (optionalFlags c) -> holds (input f) -> In (token f) (commandArgs c).
Proof.
  intros Hin Hh. rewrite commandArgs_render. right.
  apply in_concat. exists (render f). split.
  - now apply in_map.
  - unfold render. apply guard_holds in Hh. rewrite Hh. now left.
Qed.

(** With a pull-request number that is zero or negative, [label] passes the
    subcommand alone. *)
Lemma label_without_pr (pr : Z) : pr <= 0 -> label_args pr = ["label"].
Proof.
  intros H. unfold label_args.
  destruct (Z.ltb_spec 0 pr); [lia | reflexivity].
Qed.

End Gating.

(** ** Initialisation and the version check *)

Lemma checkVersion_pure (this : Manager) (out : string) (fx : Effects) :
  checkVersion this out fx = (outcome (checkVersion this out), fx).
Proof.
  unfold outcome, checkVersion, newSemVer, bind, throw, ret.
  destruct (negb (Js.includesChar Js.LF out)); [| reflexivity].
  destruct (Regex.search versionPattern out) as [m |]; [| reflexivity].
  unfold Semver.valid.
  destruct (Semver.parse m) as [v |]; cbn; [| reflexivity].
  destruct (semVerLt v MinimumAutoVersion); reflexivity.
Qed.

Lemma locateAuto_located (h : Host) (this : Manager) (fx : Effects) :
  locateAuto h this fx =
    match located h with
    | Some command => (Fulfilled (setAutoCommand this command), fx)
    | None => (Rejected ExecutableNotFound, fx)
    end.
Proof.
  unfold locateAuto, located, ret, throw.
  destruct (which h "npx"); [reflexivity |].
  destruct (which h "auto"); reflexivity.
Qed.

(** Initialisation, step by step: no executable, a failed probe, or the
    verdict of the version check on the trimmed output of the probe. *)
Lemma createCommandManager_outcome
    (h : Host) (repo owner githubApi : string) (plugins : list string) :
  outcome (createCommandManager h repo owner githubApi plugins) =
    match located h with
    | None => Rejected ExecutableNotFound
    | Some command =>
        let this := configured command repo owner githubApi plugins in
        if code (exitOf h this ["--version"]) =? 0 then
          match outcome (checkVersion this (versionOutput h this)) with
          | Fulfilled _ => Fulfilled this
          | Rejected e => Rejected e
          end
        else Rejected (SubprocessFailure (code (exitOf h this ["--version"])))
    end.
Proof.
  unfold outcome at 1, createCommandManager, initializeCommandManager, bind.
  rewrite locateAuto_located.
  destruct (located h) as [command |]; [| reflexivity].
  cbv zeta. rewrite execAuto_default.
  change (setAutoCommand _ command) with (configured command repo owner githubApi plugins).
  destruct (code _ =? 0); [| reflexivity].
  cbn [stdout]. rewrite checkVersion_pure. fold (versionOutput h (configured command repo owner githubApi plugins)).
  destruct (outcome (checkVersion _ _)); reflexivity.
Qed.

(** The manager of a successful initialisation carries the global arguments
    built from the four inputs. *)
Lemma createCommandManager_globalArgs
    (h : Host) (repo owner githubApi : string) (plugins : list string) (m : Manager) :
  outcome (createCommandManager h repo owner githubApi plugins) = Fulfilled m ->
  globalArgs m = globalArgs (initializeGlobalArgs new repo owner githubApi plugins).
Proof.
  rewrite createCommandManager_outcome.
  destruct (located h) as [command |]; [| discriminate].
  cbv zeta. destruct (code _ =? 0); [| discriminate].
  destruct (outcome (checkVersion _ _)); [| discriminate].
  intros [= <-]. reflexivity.
Qed.

(** Output of more than one line: nothing is checked. *)
Lemma checkVersion_multiline (this : Manager) (out : string) :
  Js.includesChar Js.LF out = true ->
  outcome (checkVersion this out) = Fulfilled tt.
Proof.
  intros H. unfold outcome, checkVersion. rewrite H. reflexivity.
Qed.

(** What the check does with a single-line output, by cases on the match and
    on its validity. *)
Lemma checkVersion_single_line (this : Manager) (out : string) :
  Js.includesChar Js.LF out = false ->
  outcome (checkVersion this out) =
    match Regex.search versionPattern out with
    | None => Rejected VersionUnparseable
    | Some match0 =>
        match Semver.parse match0 with
        | None => Rejected VersionUnparseable
        | Some v =>
            if Js.stringLt (Semver.toString v) "9.25.0"
            then Rejected (VersionTooOld "9.25.0" (autoCommand this) (Semver.toString v))
            else Fulfilled tt
        end
    end.
Proof.
  intros H. unfold outcome, checkVersion, newSemVer, bind, throw, ret.
  rewrite H. cbn [negb].
  destruct (Regex.search versionPattern out) as [m |]; [| reflexivity].
  unfold Semver.valid.
  destruct (Semver.parse m) as [v |]; cbn [negb fst]; [| reflexivity].
  unfold semVerLt.
  change (Semver.toString MinimumAutoVersion) with "9.25.0".
  destruct (Js.stringLt (Semver.toString v) "9.25.0"); reflexivity.
Qed.

(** [MinimumAutoVersion] is what [new SemVer('9.25.0')] builds. *)
Lemma MinimumAutoVersion_parse : Semver.parse "9.25.0" = Some MinimumAutoVersion.
Proof. reflexivity. Qed.

Section Probe.

Variable h : Host.
Variables (repo owner githubApi : string) (plugins : list string).
Variable command : string.

#[local] Abbreviation this := (configured command repo owner githubApi plugins).
#[local] Abbreviation result :=
  (outcome (createCommandManager h repo owner githubApi plugins)).

(** Once the executable is found and the probe has exited with code 0, the
    initialisation settles as the version check does. *)
Lemma probe_result :
  located h = Some command ->
  code (exitOf h this ["--version"]) = 0 ->
  result =
    match outcome (checkVersion this (versionOutput h this)) with
    | Fulfilled _ => Fulfilled this
    | Rejected e => Rejected e
    end.
Proof.
  intros Hloc Hcode.
  rewrite createCommandManager_outcome, Hloc. cbv zeta.
  rewrite Hcode. reflexivity.
Qed.

(** C9: when the trimmed output of [--version] contains a line feed, the
    version is neither extracted nor compared: the check is fulfilled at once,
    and an initialisation that found its executable and whose probe exited
    with code 0 is fulfilled with the configured manager. *)
Theorem multiline_output_skips_version_check :
  located h = Some command ->
  code (exitOf h this ["--version"]) = 0 ->
  Js.includesChar Js.LF (versionOutput h this) = true ->
  outcome (checkVersion this (versionOutput h this)) = Fulfilled tt
  /\ result = Fulfilled this.
Proof.
  intros Hloc Hcode Hlf.
  pose proof (checkVersion_multiline this _ Hlf) as Hskip.
  split; [exact Hskip |].
  rewrite (probe_result Hloc Hcode), Hskip. reflexivity.
Qed.

(** C1, as the code has it: on a host that resolves its executable and whose
    probe exits with code 0, the trimmed outputs ["9.25.0"] and
    ["v9.25.0 stable"] yield the match ["9.25.0"], a valid version, and the
    initialisation is fulfilled; the output ["9.25"] yields the match ["9.25"],
    which is not a valid version, and the output ["no version here"] yields no
    match: in both cases the initialisation is rejected with
    [VersionUnparseable]. *)
Theorem version_output_parsing :
  located h = Some command ->
  code (exitOf h this ["--version"]) = 0 ->
  (versionOutput h this = "9.25.0" \/ versionOutput h this = "v9.25.0 stable" ->
     Regex.search versionPattern (versionOutput h this) = Some "9.25.0"
     /\ Semver.valid "9.25.0" = true
     /\ result = Fulfilled this)
  /\ (versionOutput h this = "9.25" ->
     Regex.search versionPattern (versionOutput h this) = Some "9.25"
     /\ Semver.valid "9.25" = false
     /\ result = Rejected VersionUnparseable)
  /\ (versionOutput h this = "no version here" ->
     Regex.search versionPattern (versionOutput h this) = None
     /\ result = Rejected VersionUnparseable).
Proof.
  intros Hloc Hcode.
  rewrite (probe_result Hloc Hcode).
  split; [| split].
  - intros [-> | ->]; repeat split; reflexivity.
  - intros ->. repeat split; reflexivity.
  - intros ->. repeat split; reflexivity.
Qed.

End Probe.

Lemma multiline_output_skips_version_check_witness :
  located (Examples.hostPrinting 0 Examples.bannerOutput) = Some "/usr/bin/npx auto"
  /\ code (exitOf (Examples.hostPrinting 0 Examples.bannerOutput)
             Examples.configuredManager ["--version"]) = 0
  /\ Js.includesChar Js.LF
       (versionOutput (Examples.hostPrinting 0 Examples.bannerOutput)
          Examples.configuredManager) = true
  /\ outcome (checkVersion Examples.configuredManager
                (versionOutput (Examples.hostPrinting 0 Examples.bannerOutput)
                   Examples.configuredManager)) = Fulfilled tt
  /\ outcome (createCommandManager (Examples.hostPrinting 0 Examples.bannerOutput)
                "auto-action" "terradatum" "" []) =
       Fulfilled Examples.configuredManager.
Proof.
  assert (Hloc : located (Examples.hostPrinting 0 Examples.bannerOutput) =
                 Some "/usr/bin/npx auto") by reflexivity.
  assert (Hcode : code (exitOf (Examples.hostPrinting 0 Examples.bannerOutput)
                          Examples.configuredManager ["--version"]) = 0)
    by reflexivity.
  assert (Hlf : Js.includesChar Js.LF
                  (versionOutput (Examples.hostPrinting 0 Examples.bannerOutput)
                     Examples.configuredManager) = true) by reflexivity.
  repeat (split; [assumption |]).
  exact (multiline_output_skips_version_check
           (Examples.hostPrinting 0 Examples.bannerOutput)
           "auto-action" "terradatum" "" [] "/usr/bin/npx auto" Hloc Hcode Hlf).
Defined.

Lemma version_output_parsing_witness :
  located (Examples.hostPrinting 0 Examples.stableOutput) = Some "/usr/bin/npx auto"
  /\ code (exitOf (Examples.hostPrinting 0 Examples.stableOutput)
             Examples.configuredManager ["--version"]) = 0
  /\ versionOutput (Examples.hostPrinting 0 Examples.stableOutput)
       Examples.configuredManager = "v9.25.0 stable"
  /\ Regex.search versionPattern
       (versionOutput (Examples.hostPrinting 0 Examples.stableOutput)
          Examples.configuredManager) = Some "9.25.0"
  /\ Semver.valid "9.25.0" = true
  /\ outcome (createCommandManager (Examples.hostPrinting 0 Examples.stableOutput)
                "auto-action" "terradatum" "" []) =
       Fulfilled Examples.configuredManager.
Proof.
  assert (Hloc : located (Examples.hostPrinting 0 Examples.stableOutput) =
                 Some "/usr/bin/npx auto") by reflexivity.
  assert (Hcode : code (exitOf (Examples.hostPrinting 0 Examples.stableOutput)
                          Examples.configuredManager ["--version"]) = 0)
    by reflexivity.
  assert (Hout : versionOutput (Examples.hostPrinting 0 Examples.stableOutput)
                   Examples.configuredManager = "v9.25.0 stable") by reflexivity.
  repeat (split; [assumption |]).
  destruct (version_output_parsing
              (Examples.hostPrinting 0 Examples.stableOutput)
              "auto-action" "terradatum" "" [] "/usr/bin/npx auto" Hloc Hcode)
    as [Hgood _].
  apply Hgood. right. exact Hout.
Defined.

(** The output ["9.25"] against C1 as the specification words it: the pattern
    matches ["9.25"], [semver.valid] refuses it for want of a patch number, and
    the initialisation is rejected with [VersionUnparseable] instead of being
    fulfilled. *)
Lemma version_9_25_is_unparseable :
  Regex.search versionPattern
    (versionOutput (Examples.hostPrinting 0 "9.25") Examples.configuredManager)
    = Some "9.25"
  /\ Semver.valid "9.25" = false
  /\ outcome (createCommandManager (Examples.hostPrinting 0 "9.25")
                "auto-action" "terradatum" "" []) =
       Rejected VersionUnparseable
  /\ ~ (exists m : Manager,
          outcome (createCommandManager (Examples.hostPrinting 0 "9.25")
                     "auto-action" "terradatum" "" []) = Fulfilled m).
Proof.
  repeat split; try reflexivity.
  intros [m Hm]. vm_compute in Hm. discriminate Hm.
Qed.

(** ** The minimum version *)

(** The three versions the specification names behave as it says. *)
Lemma minimum_version_examples (this : Manager) :
  outcome (checkVersion this "9.24.0") =
    Rejected (VersionTooOld "9.25.0" (autoCommand this) "9.24.0")
  /\ outcome (checkVersion this "9.25.0") = Fulfilled tt
  /\ outcome (checkVersion this "9.26.1") = Fulfilled tt.
Proof. repeat split; reflexivity. Qed.

(** For a single-line output whose match is a valid version, the check is
    rejected with [VersionTooOld] exactly when the text of the version is
    below the text ["9.25.0"] as a string. *)
Lemma too_old_iff_string_below (this : Manager) (out match0 : string)
    (v : Semver.SemVer) :
  Js.includesChar Js.LF out = false ->
  Regex.search versionPattern out = Some match0 ->
  Semver.parse match0 = Some v ->
  (outcome (checkVersion this out) =
     Rejected (VersionTooOld "9.25.0" (autoCommand this) (Semver.toString v))
   <-> Js.stringLt (Semver.toString v) "9.25.0" = true).
Proof.
  intros Hlf Hs Hp.
  rewrite (checkVersion_single_line this out Hlf), Hs, Hp.
  destruct (Js.stringLt (Semver.toString v) "9.25.0"); split; congruence.
Qed.

(** C2, where the code departs from it: the output ["10.0.0"] parses to
    version 10.0.0, which is not below 9.25.0 in the order of semantic
    versions, and the initialisation is rejected with [VersionTooOld]; the
    output ["9.3.0"] parses to version 9.3.0, which is below 9.25.0, and the
    initialisation is fulfilled. *)
Theorem minimum_version_compared_as_text :
  (Semver.parse "10.0.0" = Some Examples.v10_0_0
   /\ Semver.precedes Examples.v10_0_0 MinimumAutoVersion = false
   /\ outcome (createCommandManager (Examples.hostPrinting 0 "10.0.0")
                 "auto-action" "terradatum" "" []) =
        Rejected (VersionTooOld "9.25.0" "/usr/bin/npx auto" "10.0.0"))
  /\ (Semver.parse "9.3.0" = Some Examples.v9_3_0
   /\ Semver.precedes Examples.v9_3_0 MinimumAutoVersion = true
   /\ outcome (createCommandManager (Examples.hostPrinting 0 "9.3.0")
                 "auto-action" "terradatum" "" []) =
        Fulfilled Examples.configuredManager).
Proof.
  repeat split; reflexivity.
Qed.

(* ================================================================= *)
(** * Further properties of the source *)

(** ** Initialisation: locating the executable and probing it *)

Section Initialisation.

Variable h : Host.
Variables (repo owner githubApi : string) (plugins : list string).

#[local] Abbreviation create := (createCommandManager h repo owner githubApi plugins).
#[local] Abbreviation built :=
  (globalArgs (initializeGlobalArgs new repo owner githubApi plugins)).

Lemma createCommandManager_run (fx : Effects) :
  create fx =
    match located h with
    | None => (Rejected ExecutableNotFound, fx)
    | Some command =>
        let this := configured command repo owner githubApi plugins in
        (if code (exitOf h this ["--version"]) =? 0 then
           match outcome (checkVersion this (versionOutput h this)) with
           | Fulfilled _ => Fulfilled this
           | Rejected e => Rejected e
           end
         else Rejected (SubprocessFailure (code (exitOf h this ["--version"]))),
         logged fx (invocationOf this ["--version"]))
    end.
Proof.
  unfold createCommandManager, initializeCommandManager, bind.
  rewrite locateAuto_located.
  destruct (located h) as [command |]; [| reflexivity].
  cbv zeta. rewrite execAuto_default.
  change (setAutoCommand _ command) with (configured command repo owner githubApi plugins).
  destruct (code _ =? 0); [| reflexivity].
  cbn [stdout]. rewrite checkVersion_pure.
  fold (versionOutput h (configured command repo owner githubApi plugins)).
  destruct (outcome (checkVersion _ _)); reflexivity.
Qed.

(** When neither [npx] nor [auto] resolves, the initialisation is rejected
    with [ExecutableNotFound] and has started no subprocess and left no
    promise behind: the effects are the ones it found. *)
Theorem no_executable_no_subprocess (fx : Effects) :
  which h "npx" = None ->
  which h "auto" = None ->
  create fx = (Rejected ExecutableNotFound, fx).
Proof.
  intros Hnpx Hauto. rewrite createCommandManager_run.
  unfold located. now rewrite Hnpx, Hauto.
Qed.

Lemma initialisation_effects (command : string) (fx : Effects) :
  located h = Some command ->
  snd (create fx) =
    logged fx (invocationOf (configured command repo owner githubApi plugins)
                 ["--version"]).
Proof.
  intros Hloc. rewrite createCommandManager_run, Hloc. reflexivity.
Qed.

(** When an executable is found, the initialisation starts exactly one
    subprocess, whatever its verdict: the quoted command with the global
    arguments followed by [--version], exit codes not ignored. *)
Theorem initialisation_probes_once (command : string) (fx : Effects) :
  located h = Some command ->
  snd (create fx) =
    mkEffects
      (spawned fx ++
       [mkInvocation (quote ++ command ++ quote) (built ++ ["--version"]) false])
      (floating fx).
Proof.
  intros Hloc. now rewrite (initialisation_effects command fx Hloc).
Qed.

(** [npx] has priority: when it resolves, the probe runs [<npx> auto] and
    the path of a directly installed [auto] plays no part; the path of [auto]
    is the command only when [npx] does not resolve. *)
Theorem npx_has_priority :
  (forall npx, which h "npx" = Some npx ->
     map commandLine (spawned (snd (create noEffects))) =
       [quote ++ (npx ++ " auto") ++ quote])
  /\ (forall auto, which h "npx" = None -> which h "auto" = Some auto ->
     map commandLine (spawned (snd (create noEffects))) = [quote ++ auto ++ quote]).
Proof.
  split.
  - intros npx Hnpx.
    rewrite (initialisation_effects (npx ++ " auto")).
    + reflexivity.
    + unfold located. now rewrite Hnpx.
  - intros auto Hnpx Hauto.
    rewrite (initialisation_effects auto).
    + reflexivity.
    + unfold located. now rewrite Hnpx.
Qed.

(** A probe that exits with a non-zero code rejects the initialisation with
    that code, whatever it printed: the version check is not reached. *)
Theorem failed_probe_rejects (command : string) :
  located h = Some command ->
  code (exitOf h (configured command repo owner githubApi plugins) ["--version"]) <> 0 ->
  outcome create =
    Rejected (SubprocessFailure
                (code (exitOf h (configured command repo owner githubApi plugins)
                         ["--version"]))).
Proof.
  intros Hloc Hcode. unfold outcome.
  rewrite createCommandManager_run, Hloc. cbv zeta.
  destruct (Z.eqb_spec
              (code (exitOf h (configured command repo owner githubApi plugins)
                       ["--version"])) 0);
    [contradiction | reflexivity].
Qed.

Lemma fulfilled_initialisation_facts (m : Manager) :
  outcome create = Fulfilled m ->
  located h = Some (autoCommand m)
  /\ globalArgs m = built
  /\ code (exitOf h m ["--version"]) = 0
  /\ outcome (checkVersion m (versionOutput h m)) = Fulfilled tt.
Proof.
  unfold outcome. rewrite createCommandManager_run.
  destruct (located h) as [command |]; [| discriminate].
  cbv zeta.
  destruct (Z.eqb_spec
              (code (exitOf h (configured command repo owner githubApi plugins)
                       ["--version"])) 0) as [Hcode | _];
    [| discriminate].
  destruct (outcome (checkVersion _ _)) as [[] |] eqn:Hcheck; [| discriminate].
  cbn. intros [= <-]. repeat split; assumption.
Qed.

(** What a fulfilled initialisation guarantees: an executable was found, the
    probe exited with code 0, the version check on its trimmed output passed,
    and the manager holds the command found and the global arguments built
    from the four inputs. *)
Theorem fulfilled_initialisation (m : Manager) :
  outcome create = Fulfilled m ->
  located h = Some (autoCommand m)
  /\ globalArgs m = built
  /\ code (exitOf h m ["--version"]) = 0
  /\ outcome (checkVersion m (versionOutput h m)) = Fulfilled tt.
Proof.
  exact (fulfilled_initialisation_facts m).
Qed.

(** Initialisation and an operation compose: on the manager of a fulfilled
    initialisation, every operation starts its subprocess with the global
    arguments built from the four inputs, then its own arguments. *)
Theorem initialised_operation_arguments (m : Manager) (c : Call) (fx : Effects) :
  outcome create = Fulfilled m ->
  map execArgs (spawned (snd (invoke h m c fx))) =
    (map execArgs (spawned fx) ++ [(built ++ commandArgs c)%list])%list.
Proof.
  intros Hm. apply fulfilled_initialisation_facts in Hm. destruct Hm as (_ & Hg & _).
  rewrite invoke_spawned, map_app. cbn. now rewrite Hg.
Qed.

End Initialisation.

(** ** [execAuto]: exit codes and captured output *)

(** [execAuto] with its second argument: with [true] the call is fulfilled
    for every exit code and reports the code; with [false] it behaves as with
    the argument omitted, and then a fulfilled result always carries exit code
    0.  In both cases the captured text is the chunks joined in order. *)
Theorem execAuto_exit_codes
    (h : Host) (this : Manager) (args : list string) (fx : Effects) :
  execAuto h this args (Some true) fx =
    (Fulfilled (mkAutoOutput (Js.join "" (chunks (exitOf h this args)))
                  (code (exitOf h this args))),
     mkEffects
       (spawned fx ++
        [mkInvocation (quote ++ autoCommand this ++ quote)
           (globalArgs this ++ args) true])
       (floating fx))
  /\ execAuto h this args (Some false) fx = execAuto h this args None fx
  /\ (forall output,
        fst (execAuto h this args None fx) = Fulfilled output ->
        exitCode output = 0
        /\ stdout output = Js.join "" (chunks (exitOf h this args))).
Proof.
  repeat split.
  - rewrite execAuto_default in H.
    destruct (Z.eqb_spec (code (exitOf h this args)) 0) as [E | E];
      cbn in H; [| discriminate].
    injection H as <-. exact E.
  - rewrite execAuto_default in H.
    destruct (code (exitOf h this args) =? 0); cbn in H; [| discriminate].
    now injection H as <-.
Qed.

(** The four operations that return text return the captured output as it
    is, all chunks in order and nothing trimmed, when the subprocess exits
    with code 0. *)
Theorem text_operations_return_raw_output
    (h : Host) (this : Manager) (c : Call) :
  code (exitOf h this (commandArgs c)) = 0 ->
  match c with
  | Info _ | Version _ _ | Label _ | PrCheck _ _ _ _ =>
      outcome (invoke h this c) =
        Fulfilled (RetString (String.concat "" (chunks (exitOf h this (commandArgs c)))))
  | _ => outcome (invoke h this c) = Fulfilled RetVoid
  end.
Proof.
  intros Hcode. unfold outcome.
  destruct (awaitsExec c) eqn:Haw.
  - rewrite invoke_awaited_outcome by exact Haw. rewrite Hcode. cbn.
    destruct c; reflexivity.
  - rewrite invoke_unawaited_outcome by exact Haw.
    destruct c; (reflexivity || discriminate).
Qed.

(** ** Argument lists *)

Section Arguments.

Import Descriptor.

(** The two shared helpers only append: what the list held before is kept
    in front, and what they add does not depend on it. *)
Theorem common_args_only_append (args : list string) :
  (forall dryRun noVersionPrefix name email from,
     commonChangelogReleaseArgs args dryRun noVersionPrefix name email from =
       (args ++ commonChangelogReleaseArgs [] dryRun noVersionPrefix name email from)%list)
  /\ (forall dryRun pr context,
     commonPrArgs args dryRun pr context =
       (args ++ commonPrArgs [] dryRun pr context)%list).
Proof.
  split; intros;
    unfold commonChangelogReleaseArgs, commonPrArgs; cbv zeta;
    rewrite !cond_push; cbn [app]; now rewrite <- ?app_assoc.
Qed.

(** An operation passes its subcommand alone exactly when none of its
    guarding conditions holds. *)
Theorem bare_subcommand_iff (c : Call) :
  commandArgs c = [subcommand c]
  <-> Forall (fun f => ~ holds (input f)) (optionalFlags c).
Proof.
  rewrite commandArgs_render.
  generalize (optionalFlags c). intros fs. split.
  - intros [= H]. induction fs as [| f fs IH]; [constructor |].
    cbn in H. apply app_eq_nil in H. destruct H as [Hf Hfs].
    constructor; [| now apply IH].
    unfold render in Hf. rewrite <- guard_holds.
    destruct (guard (input f)); [discriminate | congruence].
  - intros H. f_equal. induction H as [| f fs Hf _ IH]; [reflexivity |].
    cbn. rewrite IH, app_nil_r. unfold render.
    destruct (guard (input f)) eqn:G; [| reflexivity].
    apply guard_holds in G. contradiction.
Qed.

Lemma adjacent_middle (x y : string) (l1 l2 : list string) :
  adjacent x y (l1 ++ x :: y :: l2).
Proof.
  induction l1 as [| a l1 IH]; cbn.
  - left. split; reflexivity.
  - destruct (l1 ++ x :: y :: l2)%list as [| b rest] eqn:E.
    + destruct l1; discriminate.
    + right. exact IH.
Qed.

(** [prStatus] sends [--state] followed by the state in every call: the
    guard on the state can not fail, since each of the four states is a
    non-empty string. *)
Theorem prStatus_always_sends_state
    (dryRun : bool) (pr : Z) (context url sha : string) (state : PrState)
    (description : string) :
  adjacent "--state" (PrState_value state)
    (prStatus_args dryRun pr context url sha state description)
  /\ In (PrState_value state) ["pending"; "success"; "error"; "failure"].
Proof.
  split.
  - unfold prStatus_args, commonPrArgs. cbv zeta. rewrite !cond_push.
    replace (Js.truthy (PrState_value state)) with true by (now destruct state).
    rewrite <- (app_assoc _ (cons "--state" (cons (PrState_value state) nil))).
    apply adjacent_middle.
  - destruct state; cbn; tauto.
Qed.

(** For a pull-request number from 1 to [Number.MAX_SAFE_INTEGER], the value
    after [--pr] reads back as the number, so two such numbers give the same
    [label] arguments only when they are equal. *)
Theorem pr_number_round_trip (pr : Z) :
  0 < pr <= Wording.MAX_SAFE_INTEGER ->
  label_args pr = ["label"; "--pr"; Js.toString pr]
  /\ commonPrArgs [] false pr "" = ["--pr"; Js.toString pr]
  /\ option_map Z.of_int (NilZero.int_of_string (Js.toString pr)) = Some pr
  /\ (forall pr', 0 < pr' <= Wording.MAX_SAFE_INTEGER ->
        label_args pr = label_args pr' -> pr = pr').
Proof.
  intros [Hpos _].
  assert (E : forall n, 0 < n -> label_args n = ["label"; "--pr"; Js.toString n]).
  { intros n Hn. unfold label_args.
    destruct (Z.ltb_spec 0 n); [reflexivity | lia]. }
  repeat split.
  - now apply E.
  - unfold commonPrArgs. cbn. destruct (Z.ltb_spec 0 pr); [reflexivity | lia].
  - apply toString_reads_back.
  - intros pr' [Hpos' _] H. rewrite (E pr Hpos), (E pr' Hpos') in H.
    injection H as H. now apply toString_injective.
Qed.

End Arguments.

(** ** The environment of the subprocess *)

Section Environment.

Import Env.

Lemma get_put (o : Obj) (k v k' : string) :
  get (put o k v) k' = if String.eqb k' k then Some v else get o k'.
Proof.
  induction o as [| [k0 v0] o IH]; cbn.
  - reflexivity.
  - destruct (String.eqb_spec k k0) as [-> | Hk]; cbn.
    + destruct (String.eqb k' k0); reflexivity.
    + rewrite IH.
      destruct (String.eqb_spec k' k0) as [-> | Hk'].
      * destruct (String.eqb_spec k0 k); [congruence | reflexivity].
      * reflexivity.
Qed.

Lemma get_set (o : Obj) (k v k' : string) :
  get (set o k v) k' =
    if String.eqb k' k && negb (String.eqb k "__proto__") then Some v else get o k'.
Proof.
  unfold set. destruct (String.eqb k "__proto__"); cbn.
  - now rewrite andb_false_r.
  - rewrite andb_true_r. apply get_put.
Qed.

Lemma get_keys (o : Obj) (k : string) :
  existsb (String.eqb k) (keys o) = false -> get o k = None.
Proof.
  induction o as [| [k0 v0] o IH]; cbn; [reflexivity |].
  destruct (String.eqb k k0); cbn; [discriminate | exact IH].
Qed.

Lemma get_fold (src : Obj) (k : string) (ks : list string) (env : Obj) :
  get (fold_left
         (fun env key =>
            match get src key with
            | Some v => set env key v
            | None => env
            end) ks env) k =
    match (if existsb (String.eqb k) ks && negb (String.eqb k "__proto__")
           then get src k else None) with
    | Some v => Some v
    | None => get env k
    end.
Proof.
  revert env. induction ks as [| key ks IH]; intros env; cbn; [reflexivity |].
  rewrite IH.
  destruct (String.eqb_spec k key) as [-> | Hk]; cbn.
  - destruct (String.eqb key "__proto__") eqn:P; cbn.
    + rewrite andb_false_r.
      destruct (get src key); [| reflexivity].
      rewrite get_set, P. cbn. now rewrite andb_false_r.
    + destruct (existsb (String.eqb key) ks); cbn;
        destruct (get src key) as [v |] eqn:G; try reflexivity.
      rewrite get_set, String.eqb_refl, P. reflexivity.
  - destruct (existsb (String.eqb k) ks && negb (String.eqb k "__proto__"));
      [destruct (get src k); [reflexivity |] |];
      (destruct (get src key); [| reflexivity]);
      rewrite get_set;
      (destruct (String.eqb_spec k key); [contradiction | reflexivity]).
Qed.

Lemma get_copyInto (src env : Obj) (k : string) :
  get (copyInto src env) k =
    if String.eqb k "__proto__" then get env k
    else match get src k with
         | Some v => Some v
         | None => get env k
         end.
Proof.
  unfold copyInto. rewrite get_fold.
  destruct (String.eqb k "__proto__"); cbn.
  - now rewrite andb_false_r.
  - rewrite andb_true_r.
    destruct (existsb (String.eqb k) (keys src)) eqn:E; [reflexivity |].
    now rewrite (get_keys src k E).
Qed.

(** The environment of the subprocess is the process environment overlaid
    by [autoEnv]: a variable of [autoEnv] wins, any other keeps the value of
    the process environment, and nothing else is defined; the name
    [__proto__] is never defined in it.  With the [autoEnv] of the class,
    which is empty, the subprocess sees the process environment unchanged. *)
Theorem execEnv_overlay (processEnv overlay : Obj) (k : string) :
  get (execEnv processEnv overlay) "__proto__" = None
  /\ (k <> "__proto__" ->
      get (execEnv processEnv overlay) k =
        match get overlay k with
        | Some v => Some v
        | None => get processEnv k
        end)
  /\ (k <> "__proto__" ->
      get (execEnv processEnv autoEnv) k = get processEnv k).
Proof.
  unfold execEnv. repeat split.
  - now rewrite !get_copyInto.
  - intros Hk. rewrite !get_copyInto.
    destruct (String.eqb_spec k "__proto__"); [contradiction |].
    cbn. destruct (get overlay k), (get processEnv k); reflexivity.
  - intros Hk. rewrite !get_copyInto.
    destruct (String.eqb_spec k "__proto__"); [contradiction |].
    cbn. now destruct (get processEnv k).
Qed.

End Environment.

(** ** The version pattern *)

Section Pattern.

Import VersionText.

Lemma append_assoc (a b c : string) : ((a ++ b) ++ c = a ++ (b ++ c))%string.
Proof. induction a as [| x a IH]; cbn; [reflexivity | now rewrite IH]. Qed.

Lemma append_empty_r (a : string) : (a ++ "" = a)%string.
Proof. induction a as [| x a IH]; cbn; [reflexivity | now rewrite IH]. Qed.

Lemma length_append (a b : string) :
  String.length (a ++ b) = (String.length a + String.length b)%nat.
Proof. induction a as [| x a IH]; cbn; [reflexivity | now rewrite IH]. Qed.

Lemma substring_prefix (m r : string) :
  substring 0 (String.length (m ++ r) - String.length r) (m ++ r) = m.
Proof.
  rewrite length_append.
  replace (String.length m + String.length r - String.length r)%nat
    with (String.length m) by lia.
  induction m as [| x m IH]; cbn.
  - now destruct r.
  - now rewrite IH.
Qed.

Lemma all_append (p : ascii -> bool) (a b : string) :
  Semver.all p (a ++ b) = Semver.all p a && Semver.all p b.
Proof.
  induction a as [| x a IH]; cbn; [reflexivity |].
  now rewrite IH, andb_assoc.
Qed.

Lemma any_append (p : ascii -> bool) (a b : string) :
  Semver.any p (a ++ b) = Semver.any p a || Semver.any p b.
Proof.
  induction a as [| x a IH]; cbn; [reflexivity |].
  now rewrite IH, orb_assoc.
Qed.

Lemma isDigits_cons (s : string) :
  isDigits s = true ->
  exists c s', s = String c s' /\ Regex.digit c = true /\ Semver.all Regex.digit s' = true.
Proof.
  unfold isDigits. destruct s as [| c s']; cbn; [discriminate |].
  intros H. apply andb_true_iff in H. destruct H as [Hc Hs]. eauto.
Qed.

(** What a successful greedy run consumed. *)
Lemma plus_sound (p : ascii -> bool) (s : string) (k : string -> option string)
    (r : string) :
  Regex.plus p s k = Some r ->
  exists ds s' : string,
    s = (ds ++ s')%string /\ ds <> "" /\ Semver.all p ds = true /\ k s' = Some r.
Proof.
  revert r. induction s as [| c s IH]; cbn; intros r H; [discriminate |].
  destruct (p c) eqn:Hc; [| discriminate].
  destruct (Regex.plus p s k) as [r' |] eqn:Hp.
  - injection H as ->.
    destruct (IH r eq_refl) as (ds & s' & -> & _ & Hall & Hk).
    exists (String c ds), s'. cbn. rewrite Hc, Hall. repeat split; congruence.
  - exists (String c ""), s. cbn. rewrite Hc. repeat split; congruence.
Qed.

(** A greedy run takes every character of the class in front of it. *)
Lemma plus_greedy (p : ascii -> bool) (ds rest : string)
    (k : string -> option string) (r : string) :
  ds <> "" ->
  Semver.all p ds = true ->
  match rest with
  | EmptyString => True
  | String c _ => p c = false
  end ->
  k rest = Some r ->
  Regex.plus p (ds ++ rest) k = Some r.
Proof.
  intros Hne Hall Hrest Hk.
  induction ds as [| c ds IH]; [congruence |].
  cbn in Hall. apply andb_true_iff in Hall. destruct Hall as [Hc Hall].
  cbn. rewrite Hc.
  destruct ds as [| d ds'].
  - cbn. destruct rest as [| x rest']; cbn.
    + exact Hk.
    + rewrite Hrest. exact Hk.
  - rewrite IH; [reflexivity | discriminate | exact Hall].
Qed.

Lemma plus_none (p : ascii -> bool) (s : string) (k : string -> option string) :
  match s with
  | EmptyString => True
  | String c _ => p c = false
  end ->
  Regex.plus p s k = None.
Proof.
  destruct s as [| c s]; cbn; [reflexivity |]. now intros ->.
Qed.

Lemma lit_dot (c : ascii) : Regex.lit "." c = true -> c = "."%char.
Proof.
  unfold Regex.lit. intros H. symmetry. now apply Ascii.eqb_eq.
Qed.

(** A match of the version pattern at the start of a text. *)
Lemma run_versionPattern_sound (s r : string) :
  Regex.run versionPattern s Some = Some r ->
  exists m : string, s = (m ++ r)%string /\ isVersionLike m.
Proof.
  unfold versionPattern. cbn [Regex.run]. intros H.
  apply plus_sound in H. destruct H as (a & s1 & -> & Ha & Have & H).
  destruct s1 as [| c s1]; [discriminate |].
  destruct (Regex.lit "." c) eqn:Hc; [| discriminate].
  apply lit_dot in Hc. subst c.
  apply plus_sound in H. destruct H as (b & s2 & -> & Hb & Hbve & H).
  assert (Da : isDigits a = true).
  { unfold isDigits. rewrite Have. destruct a; [congruence | reflexivity]. }
  assert (Db : isDigits b = true).
  { unfold isDigits. rewrite Hbve. destruct b; [congruence | reflexivity]. }
  destruct s2 as [| c s2].
  - cbn in H. injection H as <-.
    exists (a ++ "." ++ b)%string. split.
    + cbn. now rewrite !append_empty_r.
    + exists a, b. auto.
  - destruct (Regex.lit "." c) eqn:Hc.
    + apply lit_dot in Hc. subst c.
      destruct (Regex.plus Regex.digit s2 Some) as [r' |] eqn:Hp.
      * injection H as ->.
        apply plus_sound in Hp. destruct Hp as (d & s3 & -> & Hd & Hdve & Hk).
        injection Hk as ->.
        exists (a ++ "." ++ b ++ "." ++ d)%string. split.
        -- cbn. rewrite !append_assoc. cbn. now rewrite !append_assoc.
        -- exists a, b. repeat split; try assumption. right. exists d. split; [| reflexivity].
           unfold isDigits. rewrite Hdve. destruct d; [congruence | reflexivity].
      * injection H as <-.
        exists (a ++ "." ++ b)%string. split.
        -- cbn. rewrite !append_assoc. reflexivity.
        -- exists a, b. auto.
    + injection H as <-.
      exists (a ++ "." ++ b)%string. split.
      * cbn. rewrite !append_assoc. reflexivity.
      * exists a, b. auto.
Qed.

Lemma matchHere_sound (s m : string) :
  Regex.matchHere versionPattern s = Some m ->
  exists post : string, s = (m ++ post)%string /\ isVersionLike m.
Proof.
  unfold Regex.matchHere.
  destruct (Regex.run versionPattern s Some) as [r |] eqn:H; [| discriminate].
  apply run_versionPattern_sound in H. destruct H as (m' & -> & Hm').
  rewrite substring_prefix. intros [= <-]. eauto.
Qed.

(** The text the pattern extracts is a piece of the output and is
    [major.minor] or [major.minor.patch], each part a run of digits: letters
    such as a leading [v], and anything after the digits, stay out of it. *)
Theorem extracted_text_is_version_like (out m : string) :
  Regex.search versionPattern out = Some m ->
  (exists pre post : string, out = (pre ++ m ++ post)%string)
  /\ isVersionLike m.
Proof.
  induction out as [| c out IH]; cbn [Regex.search].
  - destruct (Regex.matchHere versionPattern "") eqn:H; [| discriminate].
    intros [= <-]. apply matchHere_sound in H. destruct H as (post & E & V).
    split; [exists "", post; exact E | exact V].
  - destruct (Regex.matchHere versionPattern (String c out)) eqn:H.
    + intros [= <-]. apply matchHere_sound in H. destruct H as (post & E & V).
      split; [exists "", post; exact E | exact V].
    + intros Hs. destruct (IH Hs) as [(pre & post & ->) V].
      split; [exists (String c pre), post; reflexivity | exact V].
Qed.

Lemma stops_spec (post : string) :
  stops post = true ->
  match post with
  | EmptyString => True
  | String c _ => Regex.digit c = false
  end.
Proof.
  destruct post as [| c post]; cbn; [trivial |].
  now destruct (Regex.digit c).
Qed.

Lemma isDigits_nonempty (a : string) : isDigits a = true -> a <> "".
Proof. destruct a; [discriminate | discriminate]. Qed.

Lemma isDigits_all (a : string) :
  isDigits a = true -> Semver.all Regex.digit a = true.
Proof.
  unfold isDigits. intros H. apply andb_true_iff in H. tauto.
Qed.

Lemma digit_not_dot (c : ascii) : Regex.lit "." c = true -> Regex.digit c = false.
Proof. intros H. apply lit_dot in H. now subst c. Qed.

Lemma matchHere_nondigit (s : string) :
  stops s = true -> Regex.matchHere versionPattern s = None.
Proof.
  intros H. apply stops_spec in H.
  unfold Regex.matchHere, versionPattern. cbn [Regex.run].
  now rewrite plus_none.
Qed.

Lemma search_skip (pre s : string) :
  Semver.any Regex.digit pre = false ->
  Regex.search versionPattern (pre ++ s) = Regex.search versionPattern s.
Proof.
  induction pre as [| c pre IH]; cbn [append Semver.any]; [reflexivity |].
  intros H. apply orb_false_iff in H. destruct H as [Hc Hpre].
  cbn [Regex.search]. rewrite matchHere_nondigit; [now apply IH |].
  cbn. now rewrite Hc.
Qed.

Lemma search_no_digit (s : string) :
  Semver.any Regex.digit s = false -> Regex.search versionPattern s = None.
Proof.
  intros H. rewrite <- (append_empty_r s), (search_skip s "" H). reflexivity.
Qed.

Lemma run_seq (r1 r2 : Regex.regex) (s : string) (k : string -> option string) :
  Regex.run (Regex.RSeq r1 r2) s k = Regex.run r1 s (fun s1 => Regex.run r2 s1 k).
Proof. reflexivity. Qed.

Lemma run_plus (p : ascii -> bool) (s : string) (k : string -> option string) :
  Regex.run (Regex.RPlus p) s k = Regex.plus p s k.
Proof. reflexivity. Qed.

Lemma run_dot (r : Regex.regex) (s : string) (k : string -> option string) :
  Regex.run (Regex.RSeq (Regex.RChar (Regex.lit ".")) r) ("." ++ s) k =
    Regex.run r s k.
Proof.
  cbn [Regex.run append]. unfold Regex.lit. now rewrite Ascii.eqb_refl.
Qed.

Lemma run_patch_absent (post : string) :
  stopsVersion post = true ->
  Regex.run
    (Regex.ROpt (Regex.RSeq (Regex.RChar (Regex.lit ".")) (Regex.RPlus Regex.digit)))
    post Some = Some post.
Proof.
  intros H. cbn [Regex.run].
  destruct post as [| c post']; [reflexivity |].
  cbn in H. apply andb_true_iff in H. destruct H as [_ Hdot].
  unfold Regex.lit.
  destruct (Ascii.eqb "." c) eqn:E; [| reflexivity].
  rewrite Ascii.eqb_sym in E. rewrite E in Hdot. cbn [negb orb] in Hdot.
  rewrite plus_none; [reflexivity | now apply stops_spec].
Qed.

Lemma run_patch_present (c post : string) :
  isDigits c = true -> stops post = true ->
  Regex.run
    (Regex.ROpt (Regex.RSeq (Regex.RChar (Regex.lit ".")) (Regex.RPlus Regex.digit)))
    ("." ++ c ++ post) Some = Some post.
Proof.
  intros Hc Hpost.
  change (match Regex.run
                  (Regex.RSeq (Regex.RChar (Regex.lit ".")) (Regex.RPlus Regex.digit))
                  ("." ++ c ++ post) Some with
          | Some rest => Some rest
          | None => Some ("." ++ c ++ post)%string
          end = Some post).
  rewrite run_dot, run_plus.
  rewrite (plus_greedy Regex.digit c post Some post);
    [reflexivity | now apply isDigits_nonempty | now apply isDigits_all
     | now apply stops_spec | reflexivity].
Qed.

Lemma stopsVersion_stops (post : string) :
  stopsVersion post = true -> stops post = true.
Proof.
  destruct post as [| c post']; cbn; [reflexivity |].
  intros H. apply andb_true_iff in H. tauto.
Qed.

(** Two parts, then something that is not the start of a third. *)
Lemma matchHere_two (a b post : string) :
  isDigits a = true -> isDigits b = true -> stopsVersion post = true ->
  Regex.matchHere versionPattern (a ++ "." ++ b ++ post) = Some (a ++ "." ++ b)%string.
Proof.
  intros Ha Hb Hpost.
  unfold Regex.matchHere.
  assert (R : Regex.run versionPattern (a ++ "." ++ b ++ post) Some = Some post).
  { unfold versionPattern. rewrite run_seq, run_plus.
    apply plus_greedy;
      [now apply isDigits_nonempty | now apply isDigits_all | reflexivity |].
    rewrite run_dot, run_seq, run_plus.
    apply plus_greedy;
      [now apply isDigits_nonempty | now apply isDigits_all | |].
    - apply stops_spec. now apply stopsVersion_stops.
    - now apply run_patch_absent. }
  rewrite R.
  replace (a ++ "." ++ b ++ post)%string with ((a ++ "." ++ b) ++ post)%string
    by (rewrite !append_assoc; reflexivity).
  now rewrite substring_prefix.
Qed.

(** Three parts, then something that is not a digit. *)
Lemma matchHere_three (a b c post : string) :
  isDigits a = true -> isDigits b = true -> isDigits c = true ->
  stops post = true ->
  Regex.matchHere versionPattern (a ++ "." ++ b ++ "." ++ c ++ post) =
    Some (a ++ "." ++ b ++ "." ++ c)%string.
Proof.
  intros Ha Hb Hc Hpost.
  unfold Regex.matchHere.
  assert (R : Regex.run versionPattern (a ++ "." ++ b ++ "." ++ c ++ post) Some
              = Some post).
  { unfold versionPattern. rewrite run_seq, run_plus.
    apply plus_greedy;
      [now apply isDigits_nonempty | now apply isDigits_all | reflexivity |].
    rewrite run_dot, run_seq, run_plus.
    apply plus_greedy;
      [now apply isDigits_nonempty | now apply isDigits_all | reflexivity |].
    apply run_patch_present; assumption. }
  rewrite R.
  replace (a ++ "." ++ b ++ "." ++ c ++ post)%string
    with ((a ++ "." ++ b ++ "." ++ c) ++ post)%string
    by (rewrite !append_assoc; reflexivity).
  now rewrite substring_prefix.
Qed.

End Pattern.

(** ** Version texts and [semver] *)

Section VersionTexts.

Import VersionText.

(** A digit is none of the characters the grammar treats specially. *)
Lemma digit_plain (c : ascii) :
  Regex.digit c = true ->
  Js.isWhiteSpace c = false
  /\ Ascii.eqb "+" c = false /\ Ascii.eqb "-" c = false /\ Ascii.eqb "." c = false
  /\ Ascii.eqb Js.LF c = false
  /\ forall s, Semver.dropV (String c s) = String c s.
Proof.
  destruct c as [[] [] [] [] [] [] [] []]; cbn; intros H;
    try discriminate H; repeat split.
Qed.

Lemma plainChar_facts (c : ascii) :
  plainChar c = true ->
  Js.isWhiteSpace c = false
  /\ Ascii.eqb "+" c = false /\ Ascii.eqb "-" c = false
  /\ Ascii.eqb Js.LF c = false.
Proof.
  unfold plainChar. intros H. apply orb_true_iff in H. destruct H as [H | H].
  - apply digit_plain in H. tauto.
  - apply Ascii.eqb_eq in H. subst c. repeat split.
Qed.

Lemma trimEnd_plain (s : string) :
  Semver.all plainChar s = true -> Js.trimEnd s = s.
Proof.
  induction s as [| c s IH]; cbn; [reflexivity |].
  intros H. apply andb_true_iff in H. destruct H as [Hc Hs].
  rewrite (IH Hs). apply plainChar_facts in Hc. destruct Hc as (W & _).
  destruct s; [now rewrite W | reflexivity].
Qed.

Lemma trim_plain (s : string) :
  Semver.all plainChar s = true -> Js.trim s = s.
Proof.
  intros H. unfold Js.trim.
  assert (T : Js.trimStart s = s).
  { destruct s as [| c s]; [reflexivity |].
    cbn in H. apply andb_true_iff in H. destruct H as [Hc _].
    apply plainChar_facts in Hc. destruct Hc as (W & _).
    cbn. now rewrite W. }
  rewrite T. now apply trimEnd_plain.
Qed.

Lemma cutAt_absent (x : ascii) (s : string) :
  Semver.all (fun c => negb (Ascii.eqb x c)) s = true ->
  Semver.cutAt x s = (s, None).
Proof.
  induction s as [| c s IH]; cbn; [reflexivity |].
  intros H. apply andb_true_iff in H. destruct H as [Hc Hs].
  destruct (Ascii.eqb x c); [discriminate |]. now rewrite (IH Hs).
Qed.

Lemma all_impl (p q : ascii -> bool) (s : string) :
  (forall c, p c = true -> q c = true) ->
  Semver.all p s = true -> Semver.all q s = true.
Proof.
  intros Hpq. induction s as [| c s IH]; cbn; [reflexivity |].
  intros H. apply andb_true_iff in H. destruct H as [Hc Hs].
  now rewrite (Hpq c Hc), (IH Hs).
Qed.

Lemma splitOn_digits (a : string) :
  Semver.all Regex.digit a = true -> Semver.splitOn "." a = [a].
Proof.
  induction a as [| c a IH]; cbn [Semver.splitOn Semver.all]; [reflexivity |].
  intros H. apply andb_true_iff in H. destruct H as [Hc Ha].
  apply digit_plain in Hc. destruct Hc as (_ & _ & _ & D & _).
  now rewrite D, (IH Ha).
Qed.

Lemma splitOn_digits_dot (a rest : string) :
  Semver.all Regex.digit a = true ->
  Semver.splitOn "." (a ++ "." ++ rest) = a :: Semver.splitOn "." rest.
Proof.
  induction a as [| c a IH]; cbn [append Semver.splitOn Semver.all].
  - intros _. unfold Semver.splitOn at 1. cbn [append]. now rewrite Ascii.eqb_refl.
  - intros H. apply andb_true_iff in H. destruct H as [Hc Ha].
    apply digit_plain in Hc. destruct Hc as (_ & _ & _ & D & _).
    rewrite D. cbn [append] in IH. now rewrite (IH Ha).
Qed.

Lemma digits_plain (a : string) :
  Semver.all Regex.digit a = true -> Semver.all plainChar a = true.
Proof.
  apply all_impl. intros c H. unfold plainChar. now rewrite H.
Qed.

(** The text in front of [semver] once trimming, the optional [v] and the
    search for a build and a prerelease have left it alone. *)
Lemma parse_plain (t : string) :
  isDigits (match t with String c _ => String c "" | _ => "" end) = true ->
  Semver.all plainChar t = true ->
  Semver.parse t =
    if (Semver.MAX_LENGTH <? String.length t)%nat then None
    else
      match map Semver.numericIdentifier (Semver.splitOn "." t) with
      | [Some ma; Some mi; Some pa] =>
          if Semver.safe ma && Semver.safe mi && Semver.safe pa
          then Some (Semver.mkSemVer ma mi pa [] [])
          else None
      | _ => None
      end.
Proof.
  intros Hfirst Hall. unfold Semver.parse.
  destruct (Semver.MAX_LENGTH <? String.length t)%nat; [reflexivity |].
  rewrite (trim_plain t Hall).
  assert (V : Semver.dropV t = t).
  { destruct t as [| c t']; [reflexivity |].
    unfold isDigits in Hfirst. cbn in Hfirst.
    rewrite andb_true_r in Hfirst.
    apply digit_plain in Hfirst. destruct Hfirst as (_ & _ & _ & _ & _ & V).
    apply V. }
  rewrite V.
  rewrite (cutAt_absent "+" t).
  2:{ revert Hall. apply all_impl. intros c Hc.
      apply plainChar_facts in Hc. destruct Hc as (_ & P & _). now rewrite P. }
  rewrite (cutAt_absent "-" t).
  2:{ revert Hall. apply all_impl. intros c Hc.
      apply plainChar_facts in Hc. destruct Hc as (_ & _ & M & _). now rewrite M. }
  cbn [forallb andb]. reflexivity.
Qed.

(** *** Decimal digits and their value *)

Lemma digitsValue_of_uint_acc (d : Decimal.uint) (acc : positive) :
  Semver.digitsValue (N.pos acc) (NilEmpty.string_of_uint d) =
    N.pos (Pos.of_uint_acc d acc).
Proof.
  revert acc.
  induction d; intros acc;
    cbn [NilEmpty.string_of_uint Semver.digitsValue Pos.of_uint_acc];
    try reflexivity;
    rewrite <- IHd; f_equal;
    match goal with
    | |- (_ * 10 + (N_of_ascii ?c - 48))%N = _ =>
        let v := eval vm_compute in (N_of_ascii c - 48)%N in
        change (N_of_ascii c - 48)%N with v
    end; lia.
Qed.

Lemma digitsValue_of_uint (d : Decimal.uint) :
  Semver.digitsValue 0%N (NilEmpty.string_of_uint d) = N.of_uint d.
Proof.
  induction d;
    cbn [NilEmpty.string_of_uint Semver.digitsValue];
    try reflexivity;
    match goal with
    | |- Semver.digitsValue (0 * 10 + (N_of_ascii ?c - 48))%N _ = _ =>
        let v := eval vm_compute in (0 * 10 + (N_of_ascii c - 48))%N in
        change (0 * 10 + (N_of_ascii c - 48))%N with v
    end;
    [exact IHd | apply digitsValue_of_uint_acc ..].
Qed.

Lemma string_of_uint_digits (d : Decimal.uint) :
  Semver.all Regex.digit (NilEmpty.string_of_uint d) = true.
Proof.
  induction d; cbn [NilEmpty.string_of_uint Semver.all]; try reflexivity;
    rewrite IHd; reflexivity.
Qed.

Lemma unorm_leading_zero (d l : Decimal.uint) :
  Decimal.unorm d = Decimal.D0 l -> l = Decimal.Nil.
Proof.
  induction d; cbn; intros H; try discriminate H.
  - now injection H as <-.
  - now apply IHd.
Qed.

Lemma to_uint_normal (n : N) : Decimal.unorm (N.to_uint n) = N.to_uint n.
Proof.
  rewrite <- (DecimalN.Unsigned.to_of (N.to_uint n)).
  now rewrite DecimalN.Unsigned.of_to.
Qed.

Lemma showN_string_of_uint (n : N) :
  Semver.showN n = NilEmpty.string_of_uint (N.to_uint n)
  /\ N.to_uint n <> Decimal.Nil.
Proof.
  unfold Semver.showN, NilZero.string_of_uint.
  destruct n as [| p]; [split; [reflexivity | discriminate] |].
  cbn [N.to_uint].
  pose proof (DecimalPos.Unsigned.to_uint_nonnil p) as Hn.
  destruct (Pos.to_uint p); [congruence | split; [reflexivity | discriminate] ..].
Qed.

(** The digits [showN] prints are a numeric identifier of [semver] with the
    number as its value. *)
Lemma numericIdentifier_showN (n : N) :
  isDigits (Semver.showN n) = true
  /\ Semver.numericIdentifier (Semver.showN n) = Some n.
Proof.
  destruct (showN_string_of_uint n) as [E Hnil]. rewrite E.
  pose proof (string_of_uint_digits (N.to_uint n)) as Hd.
  pose proof (digitsValue_of_uint (N.to_uint n)) as Hv.
  rewrite DecimalN.Unsigned.of_to in Hv.
  pose proof (to_uint_normal n) as Hnorm.
  destruct (NilEmpty.string_of_uint (N.to_uint n)) as [| c s'] eqn:Es.
  - destruct (N.to_uint n); try discriminate Es. congruence.
  - split.
    + unfold isDigits. now rewrite Hd.
    + unfold Semver.numericIdentifier. rewrite Hd. cbn [negb].
      destruct (Ascii.eqb c "0" && negb (String.eqb s' "")) eqn:Z;
        [| now rewrite Hv].
      exfalso. apply andb_true_iff in Z. destruct Z as [Zc Zs].
      apply Ascii.eqb_eq in Zc. subst c.
      destruct (N.to_uint n) as [| l | | | | | | | | |] eqn:En;
        cbn [NilEmpty.string_of_uint] in Es; try discriminate Es.
      injection Es as Es.
      apply unorm_leading_zero in Hnorm. subst l. cbn in Es. subst s'.
      discriminate Zs.
Qed.

(** The value of a run of digits is at least the power of ten of its
    length times what was read before it. *)
Lemma digitsValue_lower (s : string) (acc : N) :
  (acc * 10 ^ N.of_nat (String.length s) <= Semver.digitsValue acc s)%N.
Proof.
  revert acc. induction s as [| c s IH]; intros acc; cbn [String.length Semver.digitsValue].
  - cbn. lia.
  - etransitivity; [| apply IH].
    rewrite Nat2N.inj_succ, N.pow_succ_r'.
    rewrite N.mul_assoc. apply N.mul_le_mono_r. lia.
Qed.

Lemma digit_value_positive (c : ascii) :
  Regex.digit c = true -> Ascii.eqb c "0" = false -> (1 <= N_of_ascii c - 48)%N.
Proof.
  destruct c as [[] [] [] [] [] [] [] []]; cbn; intros H Z;
    try discriminate H; try discriminate Z; lia.
Qed.

(** A numeric identifier within the safe range has at most 16 digits. *)
Lemma safe_identifier_length (a : string) (x : N) :
  Semver.numericIdentifier a = Some x ->
  Semver.safe x = true ->
  (String.length a <= 16)%nat.
Proof.
  unfold Semver.numericIdentifier, Semver.safe, Semver.MAX_SAFE_INTEGER.
  destruct a as [| c a']; [discriminate |].
  destruct (Semver.all Regex.digit (String c a')) eqn:Hd; cbn [negb]; [| discriminate].
  cbn [Semver.all] in Hd. apply andb_true_iff in Hd. destruct Hd as [Hc _].
  destruct (Ascii.eqb c "0") eqn:Z; cbn [andb].
  - destruct a' as [| d a'']; cbn [String.eqb negb]; [cbn; lia | discriminate].
  - intros [= <-] Hsafe. apply N.leb_le in Hsafe.
    cbn [Semver.digitsValue] in Hsafe.
    pose proof (digitsValue_lower a' (0 * 10 + (N_of_ascii c - 48))%N) as L.
    pose proof (digit_value_positive c Hc Z) as P.
    assert (B : (10 ^ N.of_nat (String.length a') < 10 ^ 16)%N).
    { eapply N.le_lt_trans; [| eapply N.le_lt_trans; [exact Hsafe |]].
      - etransitivity; [| exact L].
        rewrite <- (N.mul_1_l (10 ^ _)) at 1. apply N.mul_le_mono_r. lia.
      - reflexivity. }
    apply N.pow_lt_mono_r_iff in B; [| lia].
    cbn [String.length]. lia.
Qed.

(** *** What [semver] makes of the extracted text *)

Lemma isDigits_first (a rest : string) :
  isDigits a = true ->
  isDigits (match (a ++ rest)%string with String c _ => String c "" | _ => "" end) = true.
Proof.
  intros H. apply isDigits_cons in H. destruct H as (c & a' & -> & Hc & _).
  unfold isDigits. cbn. now rewrite Hc.
Qed.

Lemma plain_two (a b : string) :
  isDigits a = true -> isDigits b = true ->
  Semver.all plainChar (a ++ "." ++ b) = true.
Proof.
  intros Ha Hb. rewrite !all_append.
  rewrite (digits_plain a (isDigits_all a Ha)), (digits_plain b (isDigits_all b Hb)).
  reflexivity.
Qed.

Lemma plain_three (a b c : string) :
  isDigits a = true -> isDigits b = true -> isDigits c = true ->
  Semver.all plainChar (a ++ "." ++ b ++ "." ++ c) = true.
Proof.
  intros Ha Hb Hc. rewrite !all_append.
  rewrite (digits_plain a (isDigits_all a Ha)), (digits_plain b (isDigits_all b Hb)),
    (digits_plain c (isDigits_all c Hc)).
  reflexivity.
Qed.

(** A text of two parts is no version for [semver]. *)
Lemma parse_two (a b : string) :
  isDigits a = true -> isDigits b = true ->
  Semver.parse (a ++ "." ++ b) = None.
Proof.
  intros Ha Hb.
  rewrite parse_plain; [| now apply isDigits_first | now apply plain_two].
  destruct (Semver.MAX_LENGTH <? _)%nat; [reflexivity |].
  rewrite (splitOn_digits_dot a b (isDigits_all a Ha)).
  rewrite (splitOn_digits b (isDigits_all b Hb)).
  cbn [map].
  destruct (Semver.numericIdentifier a), (Semver.numericIdentifier b); reflexivity.
Qed.

(** A text of three parts is a version exactly when each part is a numeric
    identifier within the safe range. *)
Lemma parse_three (a b c : string) :
  isDigits a = true -> isDigits b = true -> isDigits c = true ->
  Semver.parse (a ++ "." ++ b ++ "." ++ c) =
    match Semver.numericIdentifier a, Semver.numericIdentifier b,
          Semver.numericIdentifier c with
    | Some x, Some y, Some z =>
        if Semver.safe x && Semver.safe y && Semver.safe z
        then Some (plain x y z) else None
    | _, _, _ => None
    end.
Proof.
  intros Ha Hb Hc.
  rewrite parse_plain; [| now apply isDigits_first | now apply plain_three].
  rewrite (splitOn_digits_dot a _ (isDigits_all a Ha)).
  rewrite (splitOn_digits_dot b _ (isDigits_all b Hb)).
  rewrite (splitOn_digits c (isDigits_all c Hc)).
  cbn [map].
  destruct (Semver.numericIdentifier a) as [x |] eqn:Ea;
    [| now destruct (Semver.MAX_LENGTH <? _)%nat].
  destruct (Semver.numericIdentifier b) as [y |] eqn:Eb;
    [| now destruct (Semver.MAX_LENGTH <? _)%nat].
  destruct (Semver.numericIdentifier c) as [z |] eqn:Ec;
    [| now destruct (Semver.MAX_LENGTH <? _)%nat].
  destruct (Semver.safe x) eqn:Sx; [| now destruct (Semver.MAX_LENGTH <? _)%nat].
  destruct (Semver.safe y) eqn:Sy; [| now destruct (Semver.MAX_LENGTH <? _)%nat].
  destruct (Semver.safe z) eqn:Sz; [| now destruct (Semver.MAX_LENGTH <? _)%nat].
  pose proof (safe_identifier_length a x Ea Sx).
  pose proof (safe_identifier_length b y Eb Sy).
  pose proof (safe_identifier_length c z Ec Sz).
  destruct (Nat.ltb_spec Semver.MAX_LENGTH
              (String.length (a ++ "." ++ b ++ "." ++ c))) as [L | L];
    [| reflexivity].
  rewrite !length_append in L. cbn [String.length] in L.
  unfold Semver.MAX_LENGTH in L. lia.
Qed.

Lemma parse_canonical (x y z : N) :
  Semver.safe x = true -> Semver.safe y = true -> Semver.safe z = true ->
  Semver.parse (Semver.toString (plain x y z)) = Some (plain x y z).
Proof.
  intros Sx Sy Sz.
  change (Semver.toString (plain x y z))
    with (Semver.showN x ++ "." ++ Semver.showN y ++ "." ++ Semver.showN z)%string.
  destruct (numericIdentifier_showN x) as [Dx Nx].
  destruct (numericIdentifier_showN y) as [Dy Ny].
  destruct (numericIdentifier_showN z) as [Dz Nz].
  rewrite (parse_three _ _ _ Dx Dy Dz), Nx, Ny, Nz, Sx, Sy, Sz. reflexivity.
Qed.

Lemma includes_append (c : ascii) (a b : string) :
  Js.includesChar c (a ++ b) = Js.includesChar c a || Js.includesChar c b.
Proof.
  induction a as [| x a IH]; cbn; [reflexivity |].
  now rewrite IH, orb_assoc.
Qed.

End VersionTexts.

(** ** The verdict of the version check on single-line outputs *)

Section Verdict.

Import VersionText.

Variable this : Manager.

(** A single-line output without any digit is rejected with
    [VersionUnparseable]. *)
Theorem output_without_digits_is_unparseable (out : string) :
  Js.includesChar Js.LF out = false ->
  Semver.any Regex.digit out = false ->
  outcome (checkVersion this out) = Rejected VersionUnparseable.
Proof.
  intros Hlf Hnone.
  rewrite (checkVersion_single_line this out Hlf).
  now rewrite (search_no_digit out Hnone).
Qed.

(** A single-line output whose first digits form [major.minor] and no more
    is rejected with [VersionUnparseable], whatever the two numbers are: the
    pattern extracts the two parts, and [semver] wants three. *)
Theorem two_part_version_is_unparseable (pre a b post : string) :
  Semver.any Regex.digit pre = false ->
  isDigits a = true ->
  isDigits b = true ->
  stopsVersion post = true ->
  Js.includesChar Js.LF (pre ++ a ++ "." ++ b ++ post) = false ->
  Regex.search versionPattern (pre ++ a ++ "." ++ b ++ post) = Some (a ++ "." ++ b)%string
  /\ outcome (checkVersion this (pre ++ a ++ "." ++ b ++ post)) =
       Rejected VersionUnparseable.
Proof.
  intros Hpre Ha Hb Hpost Hlf.
  assert (S : Regex.search versionPattern (pre ++ a ++ "." ++ b ++ post)
              = Some (a ++ "." ++ b)%string).
  { rewrite (search_skip pre _ Hpre).
    assert (M := matchHere_two a b post Ha Hb Hpost).
    destruct (a ++ "." ++ b ++ post)%string; cbn [Regex.search]; now rewrite M. }
  split; [exact S |].
  rewrite (checkVersion_single_line this _ Hlf), S.
  now rewrite (parse_two a b Ha Hb).
Qed.

Lemma search_three (pre a b c post : string) :
  Semver.any Regex.digit pre = false ->
  isDigits a = true -> isDigits b = true -> isDigits c = true ->
  stops post = true ->
  Regex.search versionPattern (pre ++ a ++ "." ++ b ++ "." ++ c ++ post) =
    Some (a ++ "." ++ b ++ "." ++ c)%string.
Proof.
  intros Hpre Ha Hb Hc Hpost.
  rewrite (search_skip pre _ Hpre).
  assert (M := matchHere_three a b c post Ha Hb Hc Hpost).
  destruct (a ++ "." ++ b ++ "." ++ c ++ post)%string; cbn [Regex.search]; now rewrite M.
Qed.

(** The verdict on a canonical version text inside a single-line output. *)
Lemma canonical_verdict (pre post : string) (x y z : N) :
  Semver.any Regex.digit pre = false ->
  Semver.safe x = true -> Semver.safe y = true -> Semver.safe z = true ->
  stops post = true ->
  Js.includesChar Js.LF (pre ++ Semver.toString (plain x y z) ++ post) = false ->
  outcome (checkVersion this (pre ++ Semver.toString (plain x y z) ++ post)) =
    if semVerLt (plain x y z) MinimumAutoVersion
    then Rejected (VersionTooOld "9.25.0" (autoCommand this)
                     (Semver.toString (plain x y z)))
    else Fulfilled tt.
Proof.
  intros Hpre Sx Sy Sz Hpost Hlf.
  rewrite (checkVersion_single_line this _ Hlf).
  destruct (numericIdentifier_showN x) as [Dx _].
  destruct (numericIdentifier_showN y) as [Dy _].
  destruct (numericIdentifier_showN z) as [Dz _].
  assert (S : Regex.search versionPattern
                (pre ++ Semver.toString (plain x y z) ++ post)
              = Some (Semver.toString (plain x y z))).
  { change (Semver.toString (plain x y z))
      with (Semver.showN x ++ "." ++ Semver.showN y ++ "." ++ Semver.showN z)%string.
    rewrite <- (search_three pre _ _ _ post Hpre Dx Dy Dz Hpost).
    f_equal. f_equal. rewrite !append_assoc. reflexivity. }
  rewrite S, (parse_canonical x y z Sx Sy Sz). reflexivity.
Qed.

(** For a single-line output that carries a version [x.y.z] in canonical
    decimal form, after text without digits and before text that does not go
    on with a digit, the check extracts exactly that version and rejects it
    with [VersionTooOld] exactly when its text is below the text ["9.25.0"] in
    the order of strings. *)
Theorem canonical_version_verdict (pre post : string) (x y z : N) :
  Semver.any Regex.digit pre = false ->
  Semver.safe x = true -> Semver.safe y = true -> Semver.safe z = true ->
  stops post = true ->
  Js.includesChar Js.LF (pre ++ Semver.toString (plain x y z) ++ post) = false ->
  outcome (checkVersion this (pre ++ Semver.toString (plain x y z) ++ post)) =
    if Js.stringLt (Semver.toString (plain x y z)) "9.25.0"
    then Rejected (VersionTooOld "9.25.0" (autoCommand this)
                     (Semver.toString (plain x y z)))
    else Fulfilled tt.
Proof.
  exact (canonical_verdict pre post x y z).
Qed.

End Verdict.

(** ** The comparison with the minimum version *)

Section MinimumVersion.

Import VersionText.

Variable this : Manager.

Lemma N_range_cases (P : N -> Prop) (lo len : nat) :
  Forall P (map N.of_nat (seq lo len)) ->
  forall x : N, (N.of_nat lo <= x < N.of_nat (lo + len))%N -> P x.
Proof.
  intros F x Hx. rewrite Forall_forall in F. apply F.
  rewrite <- (N2Nat.id x). apply in_map. apply in_seq. lia.
Qed.

Lemma toString_plain (x y z : N) :
  Semver.toString (plain x y z) =
    (Semver.showN x ++ "." ++ Semver.showN y ++ "." ++ Semver.showN z)%string.
Proof. reflexivity. Qed.

(** Majors 10 to 89 print with a first digit below [9]. *)
Lemma major_10_to_89_below (x : N) :
  (10 <= x <= 89)%N ->
  forall rest : string, String.ltb (Semver.showN x ++ rest) "9.25.0" = true.
Proof.
  intros Hx.
  apply (N_range_cases
           (fun x => forall rest : string,
              String.ltb (Semver.showN x ++ rest) "9.25.0" = true) 10 80);
    [| lia].
  cbn [seq map]. repeat (constructor; [intros rest; reflexivity |]). constructor.
Qed.

Lemma digit_not_below_zero (c : ascii) :
  Regex.digit c = true ->
  (c ?= "0")%char = Gt \/ c = "0"%char.
Proof.
  destruct c as [[] [] [] [] [] [] [] []]; cbn; intros H;
    try discriminate H; auto.
Qed.

(** No printed number is below ["0"] as a string. *)
Lemma showN_not_below_zero (z : N) : String.ltb (Semver.showN z) "0" = false.
Proof.
  destruct (numericIdentifier_showN z) as [D _].
  apply isDigits_cons in D. destruct D as (c & s' & E & Hc & _).
  rewrite E. unfold String.ltb. cbn [String.compare].
  destruct (digit_not_below_zero c Hc) as [G | ->].
  - now rewrite G.
  - cbn. now destruct s'.
Qed.

(** With major 9 and a minor of two digits, the order of strings and the
    order of versions agree on the comparison with 9.25.0. *)
Lemma minor_two_digits_agree (y : N) :
  (10 <= y <= 99)%N ->
  forall z : N,
    String.ltb (Semver.showN 9 ++ "." ++ Semver.showN y ++ "." ++ Semver.showN z)
      "9.25.0" = (y <? 25)%N.
Proof.
  intros Hy.
  apply (N_range_cases
           (fun y => forall z : N,
              String.ltb
                (Semver.showN 9 ++ "." ++ Semver.showN y ++ "." ++ Semver.showN z)
                "9.25.0" = (y <? 25)%N) 10 90);
    [| lia].
  cbn [seq map].
  repeat (constructor;
          [intros z;
           first [reflexivity
                 | cbn; change (match (Semver.showN z ?= "0")%string with
                                | Lt => true
                                | _ => false
                                end) with (String.ltb (Semver.showN z) "0");
                   apply showN_not_below_zero] |]).
  constructor.
Qed.

Lemma precedes_major_9 (y z : N) :
  Semver.precedes (plain 9 y z) MinimumAutoVersion = (y <? 25)%N.
Proof.
  unfold Semver.precedes, plain, MinimumAutoVersion. cbn.
  destruct (N.compare_spec y 25) as [-> | H | H].
  - now destruct z.
  - symmetry. now apply N.ltb_lt.
  - symmetry. apply N.ltb_ge. lia.
Qed.

Lemma safe_small (x : N) : (x <= 99)%N -> Semver.safe x = true.
Proof.
  intros H. unfold Semver.safe, Semver.MAX_SAFE_INTEGER. apply N.leb_le. lia.
Qed.

(** Every version from 10.0.0 to 89.x.y is rejected as too old, although
    none of them is below 9.25.0 in the order of versions: the comparison is
    one of strings, and these texts start with a digit below [9]. *)
Theorem versions_10_to_89_are_rejected (pre post : string) (x y z : N) :
  (10 <= x <= 89)%N ->
  Semver.safe y = true -> Semver.safe z = true ->
  Semver.any Regex.digit pre = false ->
  stops post = true ->
  Js.includesChar Js.LF (pre ++ Semver.toString (plain x y z) ++ post) = false ->
  Semver.precedes (plain x y z) MinimumAutoVersion = false
  /\ outcome (checkVersion this (pre ++ Semver.toString (plain x y z) ++ post)) =
       Rejected (VersionTooOld "9.25.0" (autoCommand this)
                   (Semver.toString (plain x y z))).
Proof.
  intros Hx Sy Sz Hpre Hpost Hlf. split.
  - unfold Semver.precedes, plain, MinimumAutoVersion. cbn [Semver.major].
    destruct (N.compare_spec x 9); [lia | lia | reflexivity].
  - rewrite (canonical_verdict this pre post x y z Hpre
               (safe_small x ltac:(lia)) Sy Sz Hpost Hlf).
    unfold semVerLt, Js.stringLt. rewrite toString_plain.
    change (Semver.toString MinimumAutoVersion) with "9.25.0".
    now rewrite (major_10_to_89_below x Hx).
Qed.

(** From 9.10.0 to 9.99.x the check decides as the order of versions does:
    it rejects with [VersionTooOld] exactly the versions below 9.25.0. *)
Theorem versions_9_10_to_9_99_are_ordered (pre post : string) (y z : N) :
  (10 <= y <= 99)%N ->
  Semver.safe z = true ->
  Semver.any Regex.digit pre = false ->
  stops post = true ->
  Js.includesChar Js.LF (pre ++ Semver.toString (plain 9 y z) ++ post) = false ->
  outcome (checkVersion this (pre ++ Semver.toString (plain 9 y z) ++ post)) =
    if Semver.precedes (plain 9 y z) MinimumAutoVersion
    then Rejected (VersionTooOld "9.25.0" (autoCommand this)
                     (Semver.toString (plain 9 y z)))
    else Fulfilled tt.
Proof.
  intros Hy Sz Hpre Hpost Hlf.
  rewrite (canonical_verdict this pre post 9 y z Hpre
             (safe_small 9 ltac:(lia)) (safe_small y ltac:(lia)) Sz Hpost Hlf).
  unfold semVerLt, Js.stringLt. rewrite toString_plain.
  change (Semver.toString MinimumAutoVersion) with "9.25.0".
  now rewrite (minor_two_digits_agree y Hy), precedes_major_9.
Qed.

End MinimumVersion.

(* ================================================================= *)
(** ** The properties above at concrete inputs *)

Lemma no_executable_no_subprocess_witness :
  which Hosts.bare "npx" = None
  /\ which Hosts.bare "auto" = None
  /\ createCommandManager Hosts.bare "auto-action" "terradatum" "" [] noEffects =
       (Rejected ExecutableNotFound, noEffects).
Proof.
  do 2 (split; [reflexivity |]).
  exact (no_executable_no_subprocess Hosts.bare "auto-action" "terradatum" "" []
           noEffects eq_refl eq_refl).
Defined.

Lemma initialisation_probes_once_witness :
  located Hosts.autoOnly = Some "/usr/local/bin/auto"
  /\ snd (createCommandManager Hosts.autoOnly "auto-action" "terradatum" "" []
            noEffects) =
       mkEffects
         [mkInvocation (quote ++ "/usr/local/bin/auto" ++ quote)
            ["--repo"; "auto-action"; "--owner"; "terradatum"; "--version"] false]
         [].
Proof.
  split; [reflexivity |].
  exact (initialisation_probes_once Hosts.autoOnly "auto-action" "terradatum" "" []
           "/usr/local/bin/auto" noEffects eq_refl).
Defined.

Lemma npx_has_priority_witness :
  which (Examples.hostPrinting 0 "9.26.1") "npx" = Some "/usr/bin/npx"
  /\ map commandLine
       (spawned (snd (createCommandManager (Examples.hostPrinting 0 "9.26.1")
                        "auto-action" "terradatum" "" [] noEffects))) =
       [quote ++ ("/usr/bin/npx" ++ " auto") ++ quote].
Proof.
  split; [reflexivity |].
  destruct (npx_has_priority (Examples.hostPrinting 0 "9.26.1")
              "auto-action" "terradatum" "" []) as [Hnpx _].
  exact (Hnpx "/usr/bin/npx" eq_refl).
Defined.

Lemma failed_probe_rejects_witness :
  located (Examples.hostPrinting 127 "9.26.1") = Some "/usr/bin/npx auto"
  /\ code (exitOf (Examples.hostPrinting 127 "9.26.1") Examples.configuredManager
             ["--version"]) <> 0
  /\ outcome (createCommandManager (Examples.hostPrinting 127 "9.26.1")
                "auto-action" "terradatum" "" []) =
       Rejected (SubprocessFailure 127).
Proof.
  assert (Hcode : code (exitOf (Examples.hostPrinting 127 "9.26.1")
                          Examples.configuredManager ["--version"]) <> 0)
    by (cbn; lia).
  split; [reflexivity |]. split; [exact Hcode |].
  exact (failed_probe_rejects (Examples.hostPrinting 127 "9.26.1")
           "auto-action" "terradatum" "" [] "/usr/bin/npx auto" eq_refl Hcode).
Defined.

Lemma fulfilled_initialisation_witness :
  outcome (createCommandManager (Examples.hostPrinting 0 "9.26.1")
             "auto-action" "terradatum" "" []) = Fulfilled Examples.configuredManager
  /\ located (Examples.hostPrinting 0 "9.26.1") =
       Some (autoCommand Examples.configuredManager)
  /\ globalArgs Examples.configuredManager =
       globalArgs (initializeGlobalArgs new "auto-action" "terradatum" "" [])
  /\ code (exitOf (Examples.hostPrinting 0 "9.26.1") Examples.configuredManager
             ["--version"]) = 0
  /\ outcome (checkVersion Examples.configuredManager
                (versionOutput (Examples.hostPrinting 0 "9.26.1")
                   Examples.configuredManager)) = Fulfilled tt.
Proof.
  split; [reflexivity |].
  exact (fulfilled_initialisation (Examples.hostPrinting 0 "9.26.1")
           "auto-action" "terradatum" "" [] Examples.configuredManager eq_refl).
Defined.

Lemma initialised_operation_arguments_witness :
  outcome (createCommandManager (Examples.hostPrinting 0 "9.26.1")
             "auto-action" "terradatum" "" []) = Fulfilled Examples.configuredManager
  /\ map execArgs
       (spawned (snd (invoke (Examples.hostPrinting 0 "9.26.1")
                        Examples.configuredManager (Label 42) noEffects))) =
     (map execArgs (spawned noEffects) ++
      [(globalArgs (initializeGlobalArgs new "auto-action" "terradatum" "" []) ++
        commandArgs (Label 42))%list])%list.
Proof.
  split; [reflexivity |].
  exact (initialised_operation_arguments (Examples.hostPrinting 0 "9.26.1")
           "auto-action" "terradatum" "" [] Examples.configuredManager (Label 42)
           noEffects eq_refl).
Defined.

Lemma execAuto_exit_codes_witness :
  fst (execAuto Hosts.autoOnly Examples.manager ["version"] None noEffects) =
    Fulfilled (mkAutoOutput "9.26.1" 0)
  /\ exitCode (mkAutoOutput "9.26.1" 0) = 0
  /\ stdout (mkAutoOutput "9.26.1" 0) =
       Js.join "" (chunks (exitOf Hosts.autoOnly Examples.manager ["version"])).
Proof.
  split; [reflexivity |].
  destruct (execAuto_exit_codes Hosts.autoOnly Examples.manager ["version"] noEffects)
    as (_ & _ & Hdefault).
  exact (Hdefault (mkAutoOutput "9.26.1" 0) eq_refl).
Defined.

Lemma text_operations_return_raw_output_witness :
  code (exitOf (Examples.hostPrinting 0 Examples.stableOutput) Examples.manager
          (commandArgs (Version false ""))) = 0
  /\ outcome (invoke (Examples.hostPrinting 0 Examples.stableOutput) Examples.manager
                (Version false "")) =
       Fulfilled
         (RetString
            (String.concat ""
               (chunks (exitOf (Examples.hostPrinting 0 Examples.stableOutput)
                          Examples.manager (commandArgs (Version false "")))))).
Proof.
  split; [reflexivity |].
  exact (text_operations_return_raw_output
           (Examples.hostPrinting 0 Examples.stableOutput) Examples.manager
           (Version false "") eq_refl).
Defined.

Lemma pr_number_round_trip_witness :
  0 < 42 <= Wording.MAX_SAFE_INTEGER
  /\ label_args 42 = ["label"; "--pr"; "42"]
  /\ commonPrArgs [] false 42 "" = ["--pr"; "42"]
  /\ option_map Z.of_int (NilZero.int_of_string "42") = Some 42
  /\ (forall pr', 0 < pr' <= Wording.MAX_SAFE_INTEGER ->
        label_args 42 = label_args pr' -> 42 = pr').
Proof.
  assert (H : 0 < 42 <= Wording.MAX_SAFE_INTEGER)
    by (unfold Wording.MAX_SAFE_INTEGER; lia).
  split; [exact H |].
  exact (pr_number_round_trip 42 H).
Defined.

Lemma execEnv_overlay_witness :
  "GH_TOKEN" <> "__proto__"
  /\ Env.get (Env.execEnv Hosts.processEnv Hosts.overlay) "GH_TOKEN" =
       match Env.get Hosts.overlay "GH_TOKEN" with
       | Some v => Some v
       | None => Env.get Hosts.processEnv "GH_TOKEN"
       end.
Proof.
  assert (H : "GH_TOKEN" <> "__proto__") by discriminate.
  split; [exact H |].
  destruct (execEnv_overlay Hosts.processEnv Hosts.overlay "GH_TOKEN")
    as (_ & Hover & _).
  exact (Hover H).
Defined.

Lemma extracted_text_is_version_like_witness :
  Regex.search versionPattern "v9.25.0 stable" = Some "9.25.0"
  /\ (exists pre post : string, "v9.25.0 stable" = (pre ++ "9.25.0" ++ post)%string)
  /\ VersionText.isVersionLike "9.25.0".
Proof.
  split; [reflexivity |].
  exact (extracted_text_is_version_like "v9.25.0 stable" "9.25.0" eq_refl).
Defined.

Lemma output_without_digits_is_unparseable_witness :
  Js.includesChar Js.LF "command not found" = false
  /\ Semver.any Regex.digit "command not found" = false
  /\ outcome (checkVersion Examples.manager "command not found") =
       Rejected VersionUnparseable.
Proof.
  do 2 (split; [reflexivity |]).
  exact (output_without_digits_is_unparseable Examples.manager "command not found"
           eq_refl eq_refl).
Defined.

Lemma two_part_version_is_unparseable_witness :
  Semver.any Regex.digit "v" = false
  /\ VersionText.isDigits "10" = true
  /\ VersionText.isDigits "4" = true
  /\ VersionText.stopsVersion " (beta)" = true
  /\ Js.includesChar Js.LF ("v" ++ "10" ++ "." ++ "4" ++ " (beta)") = false
  /\ Regex.search versionPattern ("v" ++ "10" ++ "." ++ "4" ++ " (beta)") =
       Some ("10" ++ "." ++ "4")%string
  /\ outcome (checkVersion Examples.manager ("v" ++ "10" ++ "." ++ "4" ++ " (beta)")) =
       Rejected VersionUnparseable.
Proof.
  do 5 (split; [reflexivity |]).
  exact (two_part_version_is_unparseable Examples.manager "v" "10" "4" " (beta)"
           eq_refl eq_refl eq_refl eq_refl eq_refl).
Defined.

Lemma canonical_version_verdict_witness :
  Semver.any Regex.digit "v" = false
  /\ Semver.safe 9 = true /\ Semver.safe 26 = true /\ Semver.safe 1 = true
  /\ VersionText.stops " stable" = true
  /\ Js.includesChar Js.LF
       ("v" ++ Semver.toString (VersionText.plain 9 26 1) ++ " stable") = false
  /\ outcome (checkVersion Examples.manager
                ("v" ++ Semver.toString (VersionText.plain 9 26 1) ++ " stable")) =
       (if Js.stringLt (Semver.toString (VersionText.plain 9 26 1)) "9.25.0"
        then Rejected (VersionTooOld "9.25.0" (autoCommand Examples.manager)
                         (Semver.toString (VersionText.plain 9 26 1)))
        else Fulfilled tt).
Proof.
  do 6 (split; [reflexivity |]).
  exact (canonical_version_verdict Examples.manager "v" " stable" 9 26 1
           eq_refl eq_refl eq_refl eq_refl eq_refl eq_refl).
Defined.

Lemma versions_10_to_89_are_rejected_witness :
  (10 <= 11 <= 89)%N
  /\ Semver.safe 1 = true /\ Semver.safe 3 = true
  /\ Semver.any Regex.digit "" = false
  /\ VersionText.stops "" = true
  /\ Js.includesChar Js.LF ("" ++ Semver.toString (VersionText.plain 11 1 3) ++ "") = false
  /\ Semver.precedes (VersionText.plain 11 1 3) MinimumAutoVersion = false
  /\ outcome (checkVersion Examples.manager
                ("" ++ Semver.toString (VersionText.plain 11 1 3) ++ "")) =
       Rejected (VersionTooOld "9.25.0" (autoCommand Examples.manager)
                   (Semver.toString (VersionText.plain 11 1 3))).
Proof.
  assert (H : (10 <= 11 <= 89)%N) by lia.
  split; [exact H |].
  do 5 (split; [reflexivity |]).
  exact (versions_10_to_89_are_rejected Examples.manager "" "" 11 1 3
           H eq_refl eq_refl eq_refl eq_refl eq_refl).
Defined.

Lemma versions_9_10_to_9_99_are_ordered_witness :
  (10 <= 24 <= 99)%N
  /\ Semver.safe 7 = true
  /\ Semver.any Regex.digit "auto " = false
  /\ VersionText.stops "" = true
  /\ Js.includesChar Js.LF
       ("auto " ++ Semver.toString (VersionText.plain 9 24 7) ++ "") = false
  /\ outcome (checkVersion Examples.manager
                ("auto " ++ Semver.toString (VersionText.plain 9 24 7) ++ "")) =
       (if Semver.precedes (VersionText.plain 9 24 7) MinimumAutoVersion
        then Rejected (VersionTooOld "9.25.0" (autoCommand Examples.manager)
                         (Semver.toString (VersionText.plain 9 24 7)))
        else Fulfilled tt).
Proof.
  assert (H : (10 <= 24 <= 99)%N) by lia.
  split; [exact H |].
  do 4 (split; [reflexivity |]).
  exact (versions_9_10_to_9_99_are_ordered Examples.manager "auto " "" 24 7
           H eq_refl eq_refl eq_refl eq_refl).
Defined.
